(** * requests-safe: the denylist classifier and the safe dialer

    A shallow embedding of [src/requests_safe/__init__.py].

    - Part 1 models the text helpers and the address parser of Python's
      [ipaddress] module that [ip_is_safe] calls.
    - Part 2 models [UNSAFE_NETWORKS] and [ip_is_safe].
    - Part 3 models the socket layer as a log of calls answered by an
      environment, and [create_connection] and
      [SafeHTTPConnection._new_conn] on top of it.
    - Part 4 holds the fixtures of the test suite, used as concrete
      environments.
    - Part 5 models the class wiring of [apply].
    - Part 6 writes the denylist down the way the specification lists it.
    - Part 7 holds the theorems: the classifier, the dialer, the wiring,
      and then further properties of each. *)

From Stdlib Require Import ZArith List String Ascii Bool Lia.
From stdpp Require Import base gmap strings list pretty.
Import ListNotations.

Local Open Scope string_scope.
Local Open Scope list_scope.
Local Open Scope Z_scope.

(** ** Part 1. Text helpers and [ipaddress] parsing

    The parser follows the [ipaddress] module of CPython 3.9.5 and later:
    an octet with a leading zero is refused, and a version 6 address may
    end in [%] and a scope id. *)

Module Text.

(** [c in s] for a one-character needle. *)
Fixpoint contains (c : ascii) (s : string) : bool :=
  match s with
  | EmptyString => false
  | String d rest => Ascii.eqb c d || contains c rest
  end.

(** [s.split(sep)] for a one-character separator: never empty, one more
    part than there are separators. *)
Fixpoint split (sep : ascii) (s : string) : list string :=
  match s with
  | EmptyString => [EmptyString]
  | String c rest =>
      if Ascii.eqb c sep then EmptyString :: split sep rest
      else match split sep rest with
           | [] => [String c EmptyString]
           | p :: ps => String c p :: ps
           end
  end.

(** [s.partition(sep)]: the text before the first separator, whether a
    separator was found, and the text after it. *)
Fixpoint partition (sep : ascii) (s : string) : string * bool * string :=
  match s with
  | EmptyString => (EmptyString, false, EmptyString)
  | String c rest =>
      if Ascii.eqb c sep then (EmptyString, true, rest)
      else let '(a, found, b) := partition sep rest in (String c a, found, b)
  end.

Definition chars (s : string) : list ascii := list_ascii_of_string s.

Definition is_empty (s : string) : bool :=
  match s with EmptyString => true | _ => false end.

(** [s.startswith(c)] for a one-character prefix. *)
Definition startswith (c : ascii) (s : string) : bool :=
  match s with
  | String d _ => Ascii.eqb c d
  | EmptyString => false
  end.

(** [s.lstrip(cs)], [s.rstrip(cs)] and [s.strip(cs)]: drop leading and
    trailing characters that belong to [cs]. *)
Fixpoint lstrip (cs : string) (s : string) : string :=
  match s with
  | String c rest => if contains c cs then lstrip cs rest else s
  | EmptyString => EmptyString
  end.

Fixpoint rstrip (cs : string) (s : string) : string :=
  match s with
  | EmptyString => EmptyString
  | String c rest =>
      match rstrip cs rest with
      | EmptyString => if contains c cs then EmptyString else String c EmptyString
      | r => String c r
      end
  end.

Definition strip (cs : string) (s : string) : string := rstrip cs (lstrip cs s).

Definition is_ascii_digit (c : ascii) : bool :=
  let n := Z.of_nat (nat_of_ascii c) in (48 <=? n) && (n <=? 57).

(** Value of a hexadecimal digit; [None] outside [0-9A-Fa-f]. *)
Definition hex_value (c : ascii) : option Z :=
  let n := Z.of_nat (nat_of_ascii c) in
  if (48 <=? n) && (n <=? 57) then Some (n - 48)
  else if (65 <=? n) && (n <=? 70) then Some (n - 55)
  else if (97 <=? n) && (n <=? 102) then Some (n - 87)
  else None.

Definition is_hex_digit (c : ascii) : bool :=
  match hex_value c with Some _ => true | None => false end.

(** [int(s, 10)] on a text of ASCII digits. *)
Definition int10 (s : string) : Z :=
  fold_left (fun acc c => acc * 10 + (Z.of_nat (nat_of_ascii c) - 48)) (chars s) 0.

(** [int(s, 16)] on a text of hexadecimal digits. *)
Definition int16 (s : string) : Z :=
  fold_left (fun acc c => acc * 16 + default 0 (hex_value c)) (chars s) 0.

Definition hex_digit (d : Z) : ascii :=
  ascii_of_nat (Z.to_nat (if d <? 10 then d + 48 else d + 87)).

(** ['%x' % n] for [0 <= n < 65536]: lower case, no leading zeros. *)
Definition hex16 (n : Z) : string :=
  let ds := [n / 4096 mod 16; n / 256 mod 16; n / 16 mod 16; n mod 16] in
  let fix drop (l : list Z) : list Z :=
    match l with
    | d :: ((_ :: _) as rest) => if d =? 0 then drop rest else l
    | _ => l
    end in
  string_of_list_ascii (map hex_digit (drop ds)).

End Text.

Module ipaddress.

(** An [IPv4Address] or an [IPv6Address] object: the integer [_ip], and
    for version 6 the scope id. *)
Inductive address : Type :=
| IPv4Address (_ip : Z)
| IPv6Address (_ip : Z) (_scope_id : option string).

Definition version (a : address) : Z :=
  match a with IPv4Address _ => 4 | IPv6Address _ _ => 6 end.

Definition _ip (a : address) : Z :=
  match a with IPv4Address n => n | IPv6Address n _ => n end.

Definition max_prefixlen (v : Z) : Z := if v =? 4 then 32 else 128.

Definition _ALL_ONES (v : Z) : Z := 2 ^ max_prefixlen v - 1.

(** [IPv4Address._parse_octet]: ASCII digits only, at most three of
    them, no leading zero, at most 255. *)
Definition _parse_octet (octet_str : string) : option Z :=
  if Text.is_empty octet_str then None
  else if negb (forallb Text.is_ascii_digit (Text.chars octet_str)) then None
  else if (3 <? String.length octet_str)%nat then None
  else if negb (String.eqb octet_str "0") && Text.startswith "0"%char octet_str then None
  else
    let octet_int := Text.int10 octet_str in
    if 255 <? octet_int then None else Some octet_int.

(** [int.from_bytes(map(_parse_octet, octets), 'big')]. *)
Fixpoint from_octets (octets : list string) (acc : Z) : option Z :=
  match octets with
  | [] => Some acc
  | o :: rest =>
      match _parse_octet o with
      | Some v => from_octets rest (acc * 256 + v)
      | None => None
      end
  end.

(** [IPv4Address._ip_int_from_string]. *)
Definition v4_int_from_string (ip_str : string) : option Z :=
  if Text.is_empty ip_str then None
  else
    let octets := Text.split "."%char ip_str in
    if negb (length octets =? 4)%nat then None
    else from_octets octets 0.

(** [IPv4Address(addr_str)] on text. *)
Definition parse_v4 (addr_str : string) : option Z :=
  if Text.contains "/"%char addr_str then None
  else v4_int_from_string addr_str.

(** [IPv6Address._parse_hextet]: hexadecimal digits only, at most four
    of them; the empty text is rejected by [int('', 16)]. *)
Definition _parse_hextet (hextet_str : string) : option Z :=
  if negb (forallb Text.is_hex_digit (Text.chars hextet_str)) then None
  else if (4 <? String.length hextet_str)%nat then None
  else if Text.is_empty hextet_str then None
  else Some (Text.int16 hextet_str).

(** The hextet loops: [ip_int <<= 16; ip_int |= _parse_hextet(part)]. *)
Fixpoint hextets (parts : list string) (ip_int : Z) : option Z :=
  match parts with
  | [] => Some ip_int
  | p :: rest =>
      match _parse_hextet p with
      | Some v => hextets rest (Z.lor (Z.shiftl ip_int 16) v)
      | None => None
      end
  end.

(** The search for the ["::"] in the middle: the index of the one empty
    part strictly between the end points; a second one is an error. *)
Fixpoint find_skip (middle : list string) (i : nat) (skip_index : option nat)
  : option (option nat) :=
  match middle with
  | [] => Some skip_index
  | p :: rest =>
      if Text.is_empty p then
        match skip_index with
        | Some _ => None
        | None => find_skip rest (S i) (Some i)
        end
      else find_skip rest (S i) skip_index
  end.

Definition _HEXTET_COUNT : nat := 8.

(** [IPv6Address._ip_int_from_string]. *)
Definition v6_int_from_string (ip_str : string) : option Z :=
  if Text.is_empty ip_str then None
  else
    let parts := Text.split ":"%char ip_str in
    if (length parts <? 3)%nat then None
    else
      let parts_v4 :=
        if Text.contains "."%char (List.last parts "") then
          match parse_v4 (List.last parts "") with
          | Some ipv4_int =>
              Some (removelast parts ++
                      [Text.hex16 (Z.land (Z.shiftr ipv4_int 16) 65535);
                       Text.hex16 (Z.land ipv4_int 65535)])
          | None => None
          end
        else Some parts in
      match parts_v4 with
      | None => None
      | Some parts =>
          if (_HEXTET_COUNT + 1 <? length parts)%nat then None
          else
            match find_skip (removelast (tl parts)) 1 None with
            | None => None
            | Some (Some skip_index) =>
                let parts_hi := skip_index in
                let parts_lo := (length parts - skip_index - 1)%nat in
                let hi_lo :=
                  if Text.is_empty (hd "" parts) then
                    if (parts_hi - 1 =? 0)%nat then Some (parts_hi - 1)%nat else None
                  else Some parts_hi in
                match hi_lo with
                | None => None
                | Some parts_hi =>
                    let lo_lo :=
                      if Text.is_empty (List.last parts "") then
                        if (parts_lo - 1 =? 0)%nat then Some (parts_lo - 1)%nat else None
                      else Some parts_lo in
                    match lo_lo with
                    | None => None
                    | Some parts_lo =>
                        if (_HEXTET_COUNT <? parts_hi + parts_lo + 1)%nat then None
                        else
                          let parts_skipped := (_HEXTET_COUNT - (parts_hi + parts_lo))%nat in
                          match hextets (firstn parts_hi parts) 0 with
                          | None => None
                          | Some ip_int =>
                              hextets (skipn (length parts - parts_lo) parts)
                                      (Z.shiftl ip_int (16 * Z.of_nat parts_skipped))
                          end
                    end
                end
            | Some None =>
                if negb (length parts =? _HEXTET_COUNT)%nat then None
                else if Text.is_empty (hd "" parts) then None
                else if Text.is_empty (List.last parts "") then None
                else hextets parts 0
            end
      end.

(** [IPv6Address._split_scope_id]. *)
Definition _split_scope_id (ip_str : string) : option (string * option string) :=
  let '(addr, sep, scope_id) := Text.partition "%"%char ip_str in
  if negb sep then Some (addr, None)
  else if Text.is_empty scope_id || Text.contains "%"%char scope_id then None
  else Some (addr, Some scope_id).

(** [IPv6Address(addr_str)] on text. *)
Definition parse_v6 (addr_str : string) : option (Z * option string) :=
  if Text.contains "/"%char addr_str then None
  else
    match _split_scope_id addr_str with
    | None => None
    | Some (addr, scope) =>
        match v6_int_from_string addr with
        | Some n => Some (n, scope)
        | None => None
        end
    end.

(** [ipaddress.ip_address(text)]: version 4 is tried first, then version
    6; [None] stands for the [ValueError] raised when both fail. *)
Definition ip_address (text : string) : option address :=
  match parse_v4 text with
  | Some n => Some (IPv4Address n)
  | None =>
      match parse_v6 text with
      | Some (n, scope) => Some (IPv6Address n scope)
      | None => None
      end
  end.

(** An [IPv4Network] or [IPv6Network] object. *)
Record network : Type := Network {
  net_version : Z;
  network_address : Z;
  netmask : Z;
  prefixlen : Z
}.

(** [_ip_int_from_prefix]: [_ALL_ONES ^ (_ALL_ONES >> prefixlen)]. *)
Definition _ip_int_from_prefix (v : Z) (prefixlen : Z) : Z :=
  Z.lxor (_ALL_ONES v) (Z.shiftr (_ALL_ONES v) prefixlen).

(** [_prefix_from_prefix_string]: ASCII digits, within the family's
    width. *)
Definition _prefix_from_prefix_string (v : Z) (prefixlen_str : string) : option Z :=
  if Text.is_empty prefixlen_str
     || negb (forallb Text.is_ascii_digit (Text.chars prefixlen_str)) then None
  else
    let prefixlen := Text.int10 prefixlen_str in
    if (0 <=? prefixlen) && (prefixlen <=? max_prefixlen v) then Some prefixlen
    else None.

(** [IPv4Network(text)] and [IPv6Network(text)] with [strict=True], for
    the written form [address/prefixlen] (or a bare address), which is
    the form of every entry of [UNSAFE_NETWORKS]; a mask written as a
    netmask is not read. The address of the family is parsed, and a
    network address with host bits set is refused. *)
Definition make_network (v : Z) (addr : option Z) (mask : option string) : option network :=
  match addr with
  | None => None
  | Some packed =>
      let len :=
        match mask with
        | None => Some (max_prefixlen v)
        | Some m => _prefix_from_prefix_string v m
        end in
      match len with
      | None => None
      | Some prefixlen =>
          let netmask := _ip_int_from_prefix v prefixlen in
          if Z.land packed netmask =? packed
          then Some (Network v packed netmask prefixlen)
          else None
      end
  end.

(** [ipaddress.ip_network(text)]: version 4 first, then version 6. *)
Definition ip_network (text : string) : option network :=
  match Text.split "/"%char text with
  | [addr] =>
      match parse_v4 addr with
      | Some n => make_network 4 (Some n) None
      | None => make_network 6 (option_map fst (parse_v6 addr)) None
      end
  | [addr; mask] =>
      match parse_v4 addr with
      | Some n => make_network 4 (Some n) (Some mask)
      | None => make_network 6 (option_map fst (parse_v6 addr)) (Some mask)
      end
  | _ => None
  end.

(** [address in network] ([_BaseNetwork.__contains__]): never across
    versions; otherwise the address masked by the netmask is the network
    address. *)
Definition contains (net : network) (other : address) : bool :=
  if negb (net_version net =? version other) then false
  else Z.land (_ip other) (netmask net) =? network_address net.

End ipaddress.

(** ** Part 2. The denylist and the classifier *)

(** The written forms handed to [ipaddress.ip_network] in
    [UNSAFE_NETWORKS], in the order of the source. *)
Definition UNSAFE_NETWORKS_text : list string :=
  [ (* IPv4 unsafe networks *)
    "10.0.0.0/8"; "172.16.0.0/12"; "192.168.0.0/16";
    "169.254.0.0/16";
    "100.64.0.0/10";
    "127.0.0.0/8";
    "0.0.0.0/32";
    "192.0.0.0/24";
    "192.0.2.0/24";
    "192.88.99.0/24";
    "198.18.0.0/15";
    "198.51.100.0/24";
    "203.0.113.0/24";
    "224.0.0.0/4";
    "240.0.0.0/4";
    "255.255.255.255/32";
    (* IPv6 unsafe networks *)
    "::/128";
    "::1/128";
    "::ffff:0:0/96";
    "::ffff:0:0:0/96";
    "64:ff9b::/96";
    "100::/64";
    "2001::/32";
    "2001:20::/28";
    "2001:db8::/32";
    "2002::/16";
    "fc00::/7";
    "fe80::/10";
    "ff00::/8" ].

(** [UNSAFE_NETWORKS]: a written form that [ip_network] refused would
    abort the import of the module; [omap] leaves such an entry out, and
    [UNSAFE_NETWORKS_all_parse] below shows that there is none. *)
Definition UNSAFE_NETWORKS : list ipaddress.network :=
  omap ipaddress.ip_network UNSAFE_NETWORKS_text.

(** The exception classes that travel through this module. *)
Inductive exn_class : Type :=
| socket_error            (* socket.error, that is OSError *)
| socket_timeout          (* socket.timeout, a subclass of socket.error *)
| socket_gaierror         (* socket.gaierror, a subclass of socket.error *)
| ValueError
| TypeError
| ConnectTimeoutError     (* urllib3.exceptions *)
| NewConnectionError      (* urllib3.exceptions *)
| OtherError.             (* any class outside socket.error *)

(** A raised exception: its class and its text [str(e)]. *)
Record exn : Type := Exn {
  exn_kind : exn_class;
  exn_msg : string
}.

Definition result (A : Type) : Type := (exn + A)%type.

(** The loop of [ip_is_safe] over the networks. *)
Fixpoint not_in_any (ip : ipaddress.address) (networks : list ipaddress.network) : bool :=
  match networks with
  | [] => true
  | network :: rest =>
      if ipaddress.contains network ip then false else not_in_any ip rest
  end.

(** The text of the [ValueError] of [ipaddress.ip_address]; [repr] is
    taken to put the text between single quotes, as it does for a text
    without quote, backslash or unprintable character. *)
Definition not_an_address (ip : string) : exn :=
  Exn ValueError ("'" +:+ ip +:+ "' does not appear to be an IPv4 or IPv6 address").

(** [ip_is_safe(ip)] under Python 3 ([PY2] is false, the text is not
    decoded): [ipaddress.ip_address] raises [ValueError] on a text that
    is no address; otherwise the first network that contains the address
    makes it unsafe. *)
Definition ip_is_safe (ip : string) : result bool :=
  match ipaddress.ip_address ip with
  | None => inl (not_an_address ip)
  | Some ip => inr (not_in_any ip UNSAFE_NETWORKS)
  end.

(** ** Part 3. The socket layer and the dialer *)

(** The [sa] of a [getaddrinfo] entry: [(host, port)] for version 4 and
    [(host, port, flowinfo, scope_id)] for version 6. *)
Record sockaddr : Type := SockAddr {
  sa_host : string;
  sa_port : Z;
  sa_flow_scope : option (Z * Z)
}.

(** One entry of [socket.getaddrinfo]: [(af, socktype, proto, canonname, sa)]. *)
Record addrinfo : Type := AddrInfo {
  af : Z;
  socktype : Z;
  proto : Z;
  canonname : string;
  sa : sockaddr
}.

(** One entry of [socket_options]: [(level, optname, value)]. *)
Definition sockopt : Type := (Z * Z * Z)%type.

(** Constants of the [socket] module (their Linux values). *)
Definition AF_INET : Z := 2.
Definition AF_INET6 : Z := 10.
Definition SOCK_STREAM : Z := 1.
Definition IPPROTO_TCP : Z := 6.
Definition AI_NUMERICSERV : Z := 1024.
Definition AI_ADDRCONFIG : Z := 32.

(** [isinstance(e, socket.error)]. *)
Definition is_socket_error (e : exn) : bool :=
  match exn_kind e with
  | socket_error | socket_timeout | socket_gaierror => true
  | _ => false
  end.

(** [isinstance(e, socket.timeout)]. *)
Definition is_socket_timeout (e : exn) : bool :=
  match exn_kind e with
  | socket_timeout => true
  | _ => false
  end.

(** The verdict of the classifier on an entry, as the loop reads it. *)
Definition is_unsafe (res : addrinfo) : bool :=
  match ip_is_safe (sa_host (sa res)) with
  | inr false => true
  | _ => false
  end.

Definition is_safe (res : addrinfo) : bool :=
  match ip_is_safe (sa_host (sa res)) with
  | inr true => true
  | _ => false
  end.

(** [socket.getaddrinfo(host, port, family, type, proto, flags)]: the
    entries, or the exception of a failed resolution. *)
Definition resolver : Type := string -> Z -> Z -> Z -> Z -> Z -> result (list addrinfo).

(** The arguments of [socket.socket] for an entry. *)
Definition socket_args (res : addrinfo) : Z * Z * Z := (af res, socktype res, proto res).

Section Dialer.

(** What a caller passes as a timeout besides the module's sentinel:
    [None] or a number of seconds. *)
Variable timeout_value : Type.

(** The [timeout] argument: the sentinel [socket._GLOBAL_DEFAULT_TIMEOUT]
    or a value of the caller. *)
Inductive timeout : Type :=
| _GLOBAL_DEFAULT_TIMEOUT
| Timeout (t : timeout_value).

(** ['%s' % timeout]. *)
Variable str_timeout : timeout -> string.

(** The calls this module makes on the socket layer. A socket object is
    named by the number of sockets created before it. *)
Inductive call : Type :=
| socket_socket (af socktype proto : Z)
| setsockopt (sock : nat) (opt : sockopt)
| settimeout (sock : nat) (t : timeout_value)
| connect (sock : nat) (sa : sockaddr)
| close (sock : nat).

(** A call with what it raised, if anything. *)
Record event : Type := Event {
  ev_call : call;
  ev_raised : option exn
}.

(** The history of a run, oldest call first. *)
Definition log : Type := list event.

(** The operating system and the network: what a call raises, given
    everything that happened before it. *)
Variable env : log -> call -> option exn.

(** The resolver behind [socket.getaddrinfo]. *)
Variable getaddrinfo : resolver.

Definition is_created (ev : event) : bool :=
  match ev with
  | Event (socket_socket _ _ _) None => true
  | _ => false
  end.

(** The name of the next socket object. *)
Definition fresh (l : log) : nat := length (List.filter is_created l).

(** Computations on the socket layer: they read and extend the log and
    return a value or raise. *)
Definition M (A : Type) : Type := log -> result A * log.

Definition ret {A} (a : A) : M A := fun l => (inr a, l).

Definition raise {A} (e : exn) : M A := fun l => (inl e, l).

Definition bind {A B} (m : M A) (k : A -> M B) : M B :=
  fun l =>
    match m l with
    | (inr a, l') => k a l'
    | (inl e, l') => (inl e, l')
    end.

Local Notation "m1 ;; m2" := (bind m1 (fun _ => m2)) (at level 100, right associativity).

(** A call on an existing socket. *)
Definition perform (c : call) : M unit :=
  fun l =>
    match env l c with
    | None => (inr tt, l ++ [Event c None])
    | Some e => (inl e, l ++ [Event c (Some e)])
    end.

(** [socket.socket(af, socktype, proto)]. *)
Definition new_socket (af socktype proto : Z) : M nat :=
  fun l =>
    match env l (socket_socket af socktype proto) with
    | None => (inr (fresh l), l ++ [Event (socket_socket af socktype proto) None])
    | Some e => (inl e, l ++ [Event (socket_socket af socktype proto) (Some e)])
    end.

(** [sock.close()], taken to pass. *)
Definition do_close (sock : nat) (l : log) : log := l ++ [Event (close sock) None].

(** [for opt in opts: sock.setsockopt( *opt )]. *)
Fixpoint set_options (sock : nat) (opts : list sockopt) : M unit :=
  match opts with
  | [] => ret tt
  | opt :: rest => perform (setsockopt sock opt) ;; set_options sock rest
  end.

(** The statements of the [try] block after the socket exists: the
    iteration over [socket_options] ([None] is not iterable), the
    timeout, the connect. *)
Definition configure_and_connect (sock : nat) (sa : sockaddr) (tmo : timeout)
           (socket_options : option (list sockopt)) : M unit :=
  match socket_options with
  | None => raise (Exn TypeError "'NoneType' object is not iterable")
  | Some opts => set_options sock opts
  end ;;
  match tmo with
  | _GLOBAL_DEFAULT_TIMEOUT => ret tt
  | Timeout t => perform (settimeout sock t)
  end ;;
  perform (connect sock sa).

(** How one round of the [for] loop ends. *)
Inductive flow : Type :=
| Next (err : option exn)     (* on to the next entry, with this [err] *)
| Return (sock : nat)         (* [return sock] *)
| Raise (e : exn).            (* an exception leaves the function *)

(** One round of the loop of [create_connection]: the safety check, then
    the [try] block with its [except socket.error] handler. *)
Definition loop_body (tmo : timeout) (socket_options : option (list sockopt))
           (res : addrinfo) (err : option exn) (l : log) : flow * log :=
  match ip_is_safe (sa_host (sa res)) with
  | inl e => (Raise e, l)
  | inr false => (Next err, l)
  | inr true =>
      match new_socket (af res) (socktype res) (proto res) l with
      | (inl e, l1) =>
          if is_socket_error e then (Next (Some e), l1) else (Raise e, l1)
      | (inr sock, l1) =>
          match configure_and_connect sock (sa res) tmo socket_options l1 with
          | (inr _, l2) => (Return sock, l2)
          | (inl e, l2) =>
              if is_socket_error e then (Next (Some e), do_close sock l2)
              else (Raise e, l2)
          end
      end
  end.

(** The [for] loop over the entries. *)
Fixpoint for_loop (tmo : timeout) (socket_options : option (list sockopt))
         (cands : list addrinfo) (err : option exn) (l : log) : flow * log :=
  match cands with
  | [] => (Next err, l)
  | res :: rest =>
      match loop_body tmo socket_options res err l with
      | (Next err', l') => for_loop tmo socket_options rest err' l'
      | stop => stop
      end
  end.

(** [err = None], the loop, and the two [raise] statements after it. *)
Definition dial (cands : list addrinfo) (tmo : timeout)
           (socket_options : option (list sockopt)) : M nat :=
  fun l =>
    match for_loop tmo socket_options cands None l with
    | (Return sock, l') => (inr sock, l')
    | (Raise e, l') => (inl e, l')
    | (Next (Some err), l') => (inl err, l')
    | (Next None, l') => (inl (Exn socket_error "getaddrinfo returns an empty list"), l')
    end.

(** The host that [create_connection] resolves. *)
Definition dialed_host (host : string) : string :=
  if Text.startswith "["%char host then Text.strip "[]" host else host.

(** [create_connection(address, timeout, socket_options)]. *)
Definition create_connection (address : string * Z) (tmo : timeout)
           (socket_options : option (list sockopt)) : M nat :=
  let '(host, port) := address in
  match getaddrinfo (dialed_host host) port 0 SOCK_STREAM IPPROTO_TCP
                    (Z.lor AI_NUMERICSERV AI_ADDRCONFIG) with
  | inl e => raise e
  | inr cands => dial cands tmo socket_options
  end.

(** What [_new_conn] reads on an [HTTPConnection]: [host] is the value
    of [self.host]. From urllib3 1.23 on that attribute is a property
    which gives the host of the connection without its final dots, so
    that the [rstrip] of [_new_conn] finds none. *)
Record HTTPConnection : Type := {
  host : string;
  port : Z;
  conn_timeout : timeout;
  conn_socket_options : option (list sockopt)
}.

(** The [socket_options] keyword of [_new_conn]: present only when the
    connection's [socket_options] is truthy, so that an empty list, like
    [None], leaves [create_connection] with its default [None]. *)
Definition extra_kw (self : HTTPConnection) : option (list sockopt) :=
  match conn_socket_options self with
  | Some ((_ :: _) as opts) => Some opts
  | _ => None
  end.

(** The two messages of [_new_conn]; the first names [self.host] as the
    attribute gives it. *)
Definition timed_out_msg (self : HTTPConnection) : string :=
  "Connection to " +:+ host self +:+ " timed out. (connect timeout="
    +:+ str_timeout (conn_timeout self) +:+ ")".

Definition failed_msg (e : exn) : string :=
  "Failed to establish a new connection: " +:+ exn_msg e.

(** [SafeHTTPConnection._new_conn]: [socket_options] is handed on only
    when it is truthy; [socket.timeout] is caught first, then
    [socket.error]. *)
Definition _new_conn (self : HTTPConnection) : M nat :=
  fun l =>
    match create_connection (Text.rstrip "." (host self), port self)
                            (conn_timeout self) (extra_kw self) l with
    | (inr conn, l') => (inr conn, l')
    | (inl e, l') =>
        if is_socket_timeout e then (inl (Exn ConnectTimeoutError (timed_out_msg self)), l')
        else if is_socket_error e then (inl (Exn NewConnectionError (failed_msg e)), l')
        else (inl e, l')
    end.

(** Book-keeping over a log: the number of sockets created so far and the
    sockets that are open. *)
Definition track (st : nat * list nat) (ev : event) : nat * list nat :=
  match ev with
  | Event (socket_socket _ _ _) None => (S (fst st), snd st ++ [fst st])
  | Event (close s) _ => (fst st, List.filter (fun x => negb (Nat.eqb x s)) (snd st))
  | _ => st
  end.

Definition tracked (l : log) : nat * list nat := fold_left track l (0%nat, []).

(** The sockets of a log that were created and not closed. *)
Definition open_sockets (l : log) : list nat := snd (tracked l).

(** The socket creations a log asked for, in order. *)
Fixpoint attempted (l : log) : list (Z * Z * Z) :=
  match l with
  | [] => []
  | ev :: rest =>
      match ev_call ev with
      | socket_socket a s p => (a, s, p) :: attempted rest
      | _ => attempted rest
      end
  end.

(** The calls of one attempt when nothing fails, in the order of the
    [try] block. *)
Definition planned (sock : nat) (res : addrinfo) (tmo : timeout)
           (opts : list sockopt) : list call :=
  socket_socket (af res) (socktype res) (proto res)
    :: map (setsockopt sock) opts
    ++ match tmo with
       | _GLOBAL_DEFAULT_TIMEOUT => []
       | Timeout t => [settimeout sock t]
       end
    ++ [connect sock (sa res)].

(** A list of calls performed in order, up to the first that raises. *)
Fixpoint perform_all (cs : list call) : M unit :=
  match cs with
  | [] => ret tt
  | c :: rest => perform c ;; perform_all rest
  end.

(** A call on an existing socket that is neither its creation nor its
    closing. *)
Definition is_plain (c : call) : bool :=
  match c with
  | socket_socket _ _ _ | close _ => false
  | _ => true
  end.

Definition raised_nothing (ev : event) : Prop := ev_raised ev = None.

End Dialer.

Arguments _GLOBAL_DEFAULT_TIMEOUT {timeout_value}.
Arguments Timeout {timeout_value} t.
Arguments socket_socket {timeout_value} af socktype proto.
Arguments setsockopt {timeout_value} sock opt.
Arguments settimeout {timeout_value} sock t.
Arguments connect {timeout_value} sock sa.
Arguments close {timeout_value} sock.
Arguments Event {timeout_value} ev_call ev_raised.
Arguments ev_call {timeout_value} e.
Arguments ev_raised {timeout_value} e.
Arguments fresh {timeout_value} l.
Arguments open_sockets {timeout_value} l.
Arguments attempted {timeout_value} l.
Arguments planned {timeout_value} sock res tmo opts.
Arguments loop_body {timeout_value} env tmo socket_options res err l.
Arguments for_loop {timeout_value} env tmo socket_options cands err l.
Arguments dial {timeout_value} env cands tmo socket_options.
Arguments create_connection {timeout_value} env getaddrinfo address tmo socket_options.
Arguments _new_conn {timeout_value} str_timeout env getaddrinfo self.
Arguments host {timeout_value} h.
Arguments port {timeout_value} h.
Arguments conn_timeout {timeout_value} h.
Arguments conn_socket_options {timeout_value} h.
Arguments timed_out_msg {timeout_value} str_timeout self.
Arguments extra_kw {timeout_value} self.
Arguments perform_all {timeout_value} env cs.
Arguments ret {timeout_value A} a.
Arguments raise {timeout_value A} e.
Arguments bind {timeout_value A B} m k.
Arguments perform {timeout_value} env c.
Arguments new_socket {timeout_value} env af socktype proto.
Arguments set_options {timeout_value} env sock opts.
Arguments configure_and_connect {timeout_value} env sock sa tmo socket_options.
Arguments do_close {timeout_value} sock l.
Arguments is_plain {timeout_value} c.
Arguments raised_nothing {timeout_value} ev.
Arguments track {timeout_value} st ev.
Arguments tracked {timeout_value} l.
Arguments is_created {timeout_value} ev.

(** The resolver that answers like [g] with the unsafe entries left out. *)
Definition without_unsafe (g : resolver) : resolver :=
  fun host port family type proto flags =>
    match g host port family type proto flags with
    | inl e => inl e
    | inr cands => inr (List.filter (fun res => negb (is_unsafe res)) cands)
    end.

(** What [create_connection] asks of the resolver for a host and a port. *)
Definition resolved (g : resolver) (name : string) (p : Z) : result (list addrinfo) :=
  g (dialed_host name) p 0 SOCK_STREAM IPPROTO_TCP (Z.lor AI_NUMERICSERV AI_ADDRCONFIG).

(** A resolver with one answer for every host. *)
Definition answers (cands : list addrinfo) : resolver :=
  fun _ _ _ _ _ _ => inr cands.

(** ** Part 4. The fixtures of the test suite *)

(** The entry the tests append to [fake_getaddrinfo]:
    [(family, SOCK_STREAM, IPPROTO_TCP, "", (ip, port))]. *)
Definition entry (family : Z) (ip : string) (port : Z) : addrinfo :=
  AddrInfo family SOCK_STREAM IPPROTO_TCP "" (SockAddr ip port None).

(** [fake_getaddrinfo] of [conftest.py]: nothing for the host
    [10.10.10.58], the prepared results for every other host. *)
Definition fake_getaddrinfo (results : list addrinfo) : resolver :=
  fun host _ _ _ _ _ => if String.eqb host "10.10.10.58" then inr [] else inr results.

(** Timeouts of the examples: [None] or whole seconds. *)
Definition seconds : Type := option Z.

(** The text Python prints for the sentinel, a bare [object()], holds
    the address of the object and differs from run to run; this is one
    such text. *)
Definition sentinel_text : string := "<object object at 0x7f5c3a2b1e40>".

(** ['%s' % timeout] for these timeouts. *)
Definition str_seconds (t : timeout seconds) : string :=
  match t with
  | _GLOBAL_DEFAULT_TIMEOUT => sentinel_text
  | Timeout None => "None"
  | Timeout (Some n) => pretty n
  end.

(** A network on which every call succeeds. *)
Definition reachable : log seconds -> call seconds -> option exn :=
  fun _ _ => None.

(** [fake_socket_raises] of [conftest.py]: [connect] raises
    [socket.error("Always fails")], every other method passes. *)
Definition fake_socket_raises : log seconds -> call seconds -> option exn :=
  fun _ c =>
    match c with
    | connect _ _ => Some (Exn socket_error "Always fails")
    | _ => None
    end.

(** [fake_socket_timeout] of [conftest.py]: [socket.socket] itself raises
    [socket.timeout("This always fails")]. *)
Definition fake_socket_timeout : log seconds -> call seconds -> option exn :=
  fun _ c =>
    match c with
    | socket_socket _ _ _ => Some (Exn socket_timeout "This always fails")
    | _ => None
    end.

(** A network on which the first connect is refused and every later one
    times out. *)
Definition refused_then_timeout : log seconds -> call seconds -> option exn :=
  fun l c =>
    match c with
    | connect _ _ =>
        if existsb (fun ev => match ev_call ev with connect _ _ => true | _ => false end) l
        then Some (Exn socket_timeout "timed out")
        else Some (Exn socket_error "[Errno 111] Connection refused")
    | _ => None
    end.

(** A network on which the first connect times out and every later one
    is refused. *)
Definition timeout_then_refused : log seconds -> call seconds -> option exn :=
  fun l c =>
    match c with
    | connect _ _ =>
        if existsb (fun ev => match ev_call ev with connect _ _ => true | _ => false end) l
        then Some (Exn socket_error "[Errno 111] Connection refused")
        else Some (Exn socket_timeout "timed out")
    | _ => None
    end.

(** A network on which the first connect is refused and every later one
    passes. *)
Definition refused_once : log seconds -> call seconds -> option exn :=
  fun l c =>
    match c with
    | connect _ _ =>
        if existsb (fun ev => match ev_call ev with connect _ _ => true | _ => false end) l
        then None
        else Some (Exn socket_error "[Errno 111] Connection refused")
    | _ => None
    end.

(** The addresses of [test_it.py]. *)
Definition example_com_v6 : addrinfo := entry AF_INET6 "2606:2800:220:1:248:1893:25c8:1946" 80.
Definition example_com_v4 : addrinfo := entry AF_INET "93.184.216.34" 80.
Definition documentation_v6 : addrinfo := entry AF_INET6 "2001:db8::1" 80.
Definition rfc1918_v4 : addrinfo := entry AF_INET "10.10.10.58" 80.

(** The default [socket_options] of urllib3's [HTTPConnection]:
    [(IPPROTO_TCP, TCP_NODELAY, 1)]. *)
Definition default_socket_options : list sockopt := [(6, 1, 1)].

(** The connection of the examples: the default options of urllib3 and a
    timeout of five seconds. *)
Definition example_connection : HTTPConnection seconds :=
  {| host := "example.com";
     port := 80;
     conn_timeout := Timeout (Some 5);
     conn_socket_options := Some default_socket_options |}.

(** ** Part 5. The classes behind [apply] *)

Module wiring.

(** The connection classes in play, and the function in which each one
    creates its socket. *)
Inductive connection_class : Type :=
| HTTPConnection
| VerifiedHTTPSConnection
| SafeHTTPConnection
| SafeHTTPSConnection.

Inductive dial_routine : Type :=
| urllib3_create_connection        (* urllib3.util.connection.create_connection *)
| requests_safe_create_connection. (* [create_connection] of this module *)

(** The method resolution order of each class, as the [class] statements
    give it. *)
Definition mro (c : connection_class) : list connection_class :=
  match c with
  | HTTPConnection => [HTTPConnection]
  | VerifiedHTTPSConnection => [VerifiedHTTPSConnection; HTTPConnection]
  | SafeHTTPConnection => [SafeHTTPConnection; HTTPConnection]
  | SafeHTTPSConnection =>
      [SafeHTTPSConnection; SafeHTTPConnection; VerifiedHTTPSConnection; HTTPConnection]
  end.

(** The classes whose body defines [_new_conn], with the routine that
    definition calls. *)
Definition defines_new_conn (c : connection_class) : option dial_routine :=
  match c with
  | HTTPConnection => Some urllib3_create_connection
  | SafeHTTPConnection => Some requests_safe_create_connection
  | VerifiedHTTPSConnection | SafeHTTPSConnection => None
  end.

(** The [_new_conn] an instance of the class runs: the first definition
    along its method resolution order. *)
Definition new_conn_of (c : connection_class) : option dial_routine :=
  list_find (fun d => is_Some (defines_new_conn d)) (mro c)
    ≫= (fun p => defines_new_conn (snd p)).

Inductive pool_class : Type :=
| HTTPConnectionPool
| HTTPSConnectionPool
| SafeHTTPConnectionPool
| SafeHTTPSConnectionPool.

(** The [ConnectionCls] attribute of each pool class. *)
Definition ConnectionCls (p : pool_class) : connection_class :=
  match p with
  | HTTPConnectionPool => HTTPConnection
  | HTTPSConnectionPool => VerifiedHTTPSConnection
  | SafeHTTPConnectionPool => SafeHTTPConnection
  | SafeHTTPSConnectionPool => SafeHTTPSConnection
  end.

(** A [PoolManager]: the one attribute the override touches. *)
Record PoolManager : Type := {
  pool_classes_by_scheme : gmap string pool_class
}.

(** [PoolManager.__init__] of urllib3. *)
Definition PoolManager_init : PoolManager :=
  {| pool_classes_by_scheme :=
       <["https" := HTTPSConnectionPool]> (<["http" := HTTPConnectionPool]> ∅) |}.

(** [SafePoolManager.__init__]: the base initialiser, then the
    assignment of a new [pool_classes_by_scheme]. *)
Definition SafePoolManager_init : PoolManager :=
  let self := PoolManager_init in
  {| pool_classes_by_scheme :=
       <["https" := SafeHTTPSConnectionPool]> (<["http" := SafeHTTPConnectionPool]> ∅) |}.

(** A transport adapter: its class and its pool manager. *)
Inductive adapter_class : Type :=
| HTTPAdapter
| SafeHTTPAdapter.

Record adapter : Type := {
  adapter_cls : adapter_class;
  poolmanager : PoolManager
}.

(** [HTTPAdapter()] of requests, whose [init_poolmanager] builds a plain
    [PoolManager]. *)
Definition HTTPAdapter_new : adapter :=
  {| adapter_cls := HTTPAdapter; poolmanager := PoolManager_init |}.

(** [SafeHTTPAdapter()]: the initialiser of [HTTPAdapter] calls
    [init_poolmanager], overridden here to build a [SafePoolManager]. *)
Definition SafeHTTPAdapter_new : adapter :=
  {| adapter_cls := SafeHTTPAdapter; poolmanager := SafePoolManager_init |}.

(** A [Session]: its ordered dictionary of adapters by prefix. *)
Record Session : Type := {
  adapters : list (string * adapter)
}.

Definition has_key (key : string) (kv : string * adapter) : bool :=
  String.eqb (fst kv) key.

(** [adapters[prefix]]. *)
Definition adapters_get (prefix : string) (s : Session) : option adapter :=
  snd <$> List.find (has_key prefix) (adapters s).

(** [d[key] = value] on an ordered dictionary: in place when the key is
    there, at the end otherwise. *)
Fixpoint od_set (key : string) (value : adapter) (d : list (string * adapter))
  : list (string * adapter) :=
  match d with
  | [] => [(key, value)]
  | (k, v) :: rest =>
      if String.eqb k key then (k, value) :: rest else (k, v) :: od_set key value rest
  end.

(** [Session.mount(prefix, adapter)] of requests: the assignment, then
    every shorter key is popped and put back at the end. *)
Definition mount (prefix : string) (a : adapter) (s : Session) : Session :=
  let d := od_set prefix a (adapters s) in
  let shorter kv := (String.length (fst kv) <? String.length prefix)%nat in
  {| adapters := List.filter (fun kv => negb (shorter kv)) d ++ List.filter shorter d |}.

(** [requests.Session()]: [https://] and [http://] mounted on plain
    adapters. *)
Definition Session_new : Session :=
  mount "http://" HTTPAdapter_new (mount "https://" HTTPAdapter_new {| adapters := [] |}).

(** [apply(session)]: one [SafeHTTPAdapter] mounted on both prefixes. *)
Definition apply (session : Session) : Session :=
  let adapter := SafeHTTPAdapter_new in
  mount "https://" adapter (mount "http://" adapter session).

(** The routine that opens the socket of a new connection of the given
    scheme on the given adapter. *)
Definition dialer_for (a : adapter) (scheme : string) : option dial_routine :=
  pool_classes_by_scheme (poolmanager a) !! scheme
    ≫= (fun pool => new_conn_of (ConnectionCls pool)).

End wiring.

(** ** Part 6. The denylist as the specification lists it *)

Module Spec.

(** A dotted quad and a list of eight hextets as numbers. *)
Definition v4 (a b c d : Z) : Z := ((a * 256 + b) * 256 + c) * 256 + d.

Definition v6 (hextets : list Z) : Z := fold_left (fun acc h => acc * 65536 + h) hextets 0.

(** A range of the specification: family, first address, prefix length. *)
Definition range : Type := (Z * Z * Z)%type.

(** The sixteen version 4 ranges, in the order of the specification. *)
Definition denylist_v4 : list range :=
  [ (4, v4 10 0 0 0, 8); (4, v4 172 16 0 0, 12); (4, v4 192 168 0 0, 16);
    (4, v4 169 254 0 0, 16);
    (4, v4 100 64 0 0, 10);
    (4, v4 127 0 0 0, 8);
    (4, v4 0 0 0 0, 32);
    (4, v4 192 0 0 0, 24);
    (4, v4 192 0 2 0, 24); (4, v4 198 51 100 0, 24); (4, v4 203 0 113 0, 24);
    (4, v4 192 88 99 0, 24);
    (4, v4 198 18 0 0, 15);
    (4, v4 224 0 0 0, 4);
    (4, v4 240 0 0 0, 4);
    (4, v4 255 255 255 255, 32) ].

(** The thirteen version 6 ranges, in the order of the specification. *)
Definition denylist_v6 : list range :=
  [ (6, v6 [0; 0; 0; 0; 0; 0; 0; 0], 128); (6, v6 [0; 0; 0; 0; 0; 0; 0; 1], 128);
    (6, v6 [0; 0; 0; 0; 0; 65535; 0; 0], 96); (6, v6 [0; 0; 0; 0; 65535; 0; 0; 0], 96);
    (6, v6 [100; 65435; 0; 0; 0; 0; 0; 0], 96);
    (6, v6 [256; 0; 0; 0; 0; 0; 0; 0], 64);
    (6, v6 [8193; 0; 0; 0; 0; 0; 0; 0], 32);
    (6, v6 [8193; 32; 0; 0; 0; 0; 0; 0], 28);
    (6, v6 [8193; 3512; 0; 0; 0; 0; 0; 0], 32);
    (6, v6 [8194; 0; 0; 0; 0; 0; 0; 0], 16);
    (6, v6 [64512; 0; 0; 0; 0; 0; 0; 0], 7);
    (6, v6 [65152; 0; 0; 0; 0; 0; 0; 0], 10);
    (6, v6 [65280; 0; 0; 0; 0; 0; 0; 0], 8) ].

Definition denylist : list range := denylist_v4 ++ denylist_v6.

(** An address falls inside a range when the families agree and the
    address lies between the first address of the block and the last. *)
Definition falls_inside (a : ipaddress.address) (r : range) : Prop :=
  let '(family, first, len) := r in
  ipaddress.version a = family
  /\ first <= ipaddress._ip a < first + 2 ^ (ipaddress.max_prefixlen family - len).

Definition denied (a : ipaddress.address) : Prop := Exists (falls_inside a) denylist.

End Spec.

(** An address object as [ipaddress] builds it: the number fits the width
    of the family. *)
Definition well_formed (a : ipaddress.address) : Prop :=
  0 <= ipaddress._ip a < 2 ^ ipaddress.max_prefixlen (ipaddress.version a).

(** The range a network object stands for. *)
Definition range_of (net : ipaddress.network) : Spec.range :=
  (ipaddress.net_version net, ipaddress.network_address net, ipaddress.prefixlen net).

(** What [ip_network] guarantees of a network object it returns. *)
Definition network_ok (net : ipaddress.network) : bool :=
  ((ipaddress.net_version net =? 4) || (ipaddress.net_version net =? 6))
  && (0 <=? ipaddress.prefixlen net)
  && (ipaddress.prefixlen net <=? ipaddress.max_prefixlen (ipaddress.net_version net))
  && (0 <=? ipaddress.network_address net)
  && (ipaddress.network_address net <? 2 ^ ipaddress.max_prefixlen (ipaddress.net_version net))
  && (ipaddress.netmask net
        =? ipaddress._ip_int_from_prefix (ipaddress.net_version net) (ipaddress.prefixlen net))
  && (Z.land (ipaddress.network_address net) (ipaddress.netmask net)
        =? ipaddress.network_address net).

(** What a call made for the entry [res] on the socket [sock] looks like:
    the socket is asked for with the family, type and protocol of the
    entry, an option is one of the list, a timeout is the one of the
    caller, the connect goes to the address of the entry. *)
Definition made_for {T : Type} (tmo : timeout T) (so : option (list sockopt))
           (res : addrinfo) (sock : nat) (c : call T) : Prop :=
  match c with
  | socket_socket a s p => (a, s, p) = socket_args res
  | setsockopt s opt => s = sock /\ exists opts, so = Some opts /\ In opt opts
  | settimeout s t => s = sock /\ tmo = Timeout t
  | connect s x => s = sock /\ x = sa res
  | close s => s = sock
  end.

(** The socket a call is made on; none for the creation of a socket. *)
Definition socket_of {T : Type} (c : call T) : option nat :=
  match c with
  | socket_socket _ _ _ => None
  | setsockopt s _ | settimeout s _ | connect s _ | close s => Some s
  end.

(** An entry whose address the classifier accepts as an address. *)
Definition is_address (res : addrinfo) : bool := is_safe res || is_unsafe res.

(** A resolver that knows no name: [socket.gaierror]. *)
Definition name_not_known : resolver :=
  fun _ _ _ _ _ _ => inl (Exn socket_gaierror "[Errno -2] Name or service not known").

(** ** Part 7. Theorems *)

(** *** The classifier *)

(** Every written form of the source is accepted by [ip_network]: the
    list has its 29 networks, 16 of version 4 followed by 13 of
    version 6. *)
Lemma UNSAFE_NETWORKS_all_parse :
  Forall (fun t => is_Some (ipaddress.ip_network t)) UNSAFE_NETWORKS_text
  /\ length UNSAFE_NETWORKS = 29%nat
  /\ map ipaddress.net_version UNSAFE_NETWORKS = repeat 4 16 ++ repeat 6 13.
Proof.
  split; [|split]; [|vm_compute; reflexivity..].
  repeat constructor; vm_compute; eauto.
Qed.

Lemma UNSAFE_NETWORKS_ok : forallb network_ok UNSAFE_NETWORKS = true.
Proof. vm_compute. reflexivity. Qed.

(** The networks of the source are the ranges of the specification, up
    to order. *)
Lemma UNSAFE_NETWORKS_ranges :
  forall r, In r (map range_of UNSAFE_NETWORKS) <-> In r Spec.denylist.
Proof.
  intros r. vm_compute. tauto.
Qed.

(** Masking with the netmask of a prefix clears the host bits. *)
Lemma land_netmask (w len ip : Z) :
  0 <= len <= w -> 0 <= ip < 2 ^ w ->
  Z.land ip (Z.lxor (2 ^ w - 1) (Z.shiftr (2 ^ w - 1) len)) = ip - ip mod 2 ^ (w - len).
Proof.
  intros Hlen Hip.
  replace (2 ^ w - 1) with (Z.ones w) by (rewrite Z.ones_equiv; lia).
  assert (Hr : ip - ip mod 2 ^ (w - len) = Z.shiftl (Z.shiftr ip (w - len)) (w - len)).
  { rewrite Z.shiftl_mul_pow2, Z.shiftr_div_pow2 by lia.
    pose proof (Z.div_mod ip (2 ^ (w - len))) as D.
    assert (0 < 2 ^ (w - len)) by (apply Z.pow_pos_nonneg; lia). lia. }
  rewrite Hr. apply Z.bits_inj'. intros i Hi.
  rewrite Z.land_spec, Z.lxor_spec, Z.shiftr_spec by lia.
  destruct (Z_lt_dec i (w - len)) as [Hlow | Hhigh].
  - rewrite !Z.ones_spec_low by lia. rewrite Z.shiftl_spec_low by lia.
    simpl. apply andb_false_r.
  - rewrite Z.shiftl_spec_high, Z.shiftr_spec by lia.
    replace (i - (w - len) + (w - len)) with i by lia.
    destruct (Z_lt_dec i w) as [Hin | Hout].
    + rewrite Z.ones_spec_low by lia. rewrite Z.ones_spec_high by lia.
      simpl. apply andb_true_r.
    + rewrite !Z.ones_spec_high by lia. simpl. rewrite andb_false_r.
      destruct (Z.eq_dec ip 0) as [-> | Hnz]; [now rewrite Z.bits_0 |].
      symmetry. apply Z.bits_above_log2; [lia |].
      assert (Z.log2 ip < w) by (apply Z.log2_lt_pow2; lia). lia.
Qed.

(** Clearing the host bits gives the first address of the block exactly
    for the addresses of the block. *)
Lemma block_range (k ip first : Z) :
  0 <= k -> first mod 2 ^ k = 0 ->
  (ip - ip mod 2 ^ k = first <-> first <= ip < first + 2 ^ k).
Proof.
  intros Hk Hfirst.
  assert (Hpos : 0 < 2 ^ k) by (apply Z.pow_pos_nonneg; lia).
  pose proof (Z.mod_pos_bound ip (2 ^ k) Hpos) as Hm.
  split.
  - intros <-. lia.
  - intros Hr.
    pose proof (Z.div_mod first (2 ^ k) ltac:(lia)) as Df.
    pose proof (Z.div_mod ip (2 ^ k) ltac:(lia)) as Di.
    assert (E : first / 2 ^ k = ip / 2 ^ k).
    { apply Z.div_unique with (r := ip - first); lia. }
    rewrite <- E in Di. lia.
Qed.

(** [address in network] of the code is "falls inside the range" of the
    specification. *)
Lemma contains_falls_inside (net : ipaddress.network) (a : ipaddress.address) :
  network_ok net = true -> well_formed a ->
  (ipaddress.contains net a = true <-> Spec.falls_inside a (range_of net)).
Proof.
  unfold network_ok, well_formed, ipaddress.contains, Spec.falls_inside, range_of.
  destruct net as [v first mask len].
  cbn [ipaddress.net_version ipaddress.network_address ipaddress.netmask
       ipaddress.prefixlen].
  intros Hok Ha.
  repeat (apply andb_prop in Hok; destruct Hok as [Hok ?]).
  assert (Hv : v = 4 \/ v = 6) by (apply orb_prop in Hok; lia).
  assert (Hmask : mask = ipaddress._ip_int_from_prefix v len) by lia.
  assert (Hw : 0 <= len <= ipaddress.max_prefixlen v) by lia.
  assert (Hfirst : 0 <= first < 2 ^ ipaddress.max_prefixlen v) by lia.
  assert (Hhost : Z.land first mask = first) by lia.
  clear Hok.
  destruct (Z.eqb_spec v (ipaddress.version a)) as [Heq | Hne]; cbn [negb].
  - subst mask. unfold ipaddress._ip_int_from_prefix, ipaddress._ALL_ONES in *.
    rewrite <- Heq in Ha.
    rewrite land_netmask in Hhost by lia.
    rewrite land_netmask by lia.
    rewrite Z.eqb_eq.
    rewrite block_range by lia. intuition.
  - split; [discriminate | intros [? _]; congruence].
Qed.

(** The loop answers [false] exactly when some network contains the
    address. *)
Lemma not_in_any_false (a : ipaddress.address) (nets : list ipaddress.network) :
  not_in_any a nets = false <-> Exists (fun net => ipaddress.contains net a = true) nets.
Proof.
  induction nets as [| net rest IH]; simpl.
  - split; [discriminate | intros H; inversion H].
  - destruct (ipaddress.contains net a) eqn:E.
    + split; [intros _; now left | reflexivity].
    + rewrite IH. split; [intros H; now right |].
      intros H; inversion H; subst; [congruence | assumption].
Qed.

(** On a well-formed address the loop over [UNSAFE_NETWORKS] decides
    membership in the denylist of the specification. *)
Lemma not_in_any_denied (a : ipaddress.address) :
  well_formed a ->
  (not_in_any a UNSAFE_NETWORKS = false <-> Spec.denied a).
Proof.
  intros Ha. rewrite not_in_any_false. unfold Spec.denied.
  rewrite !List.Exists_exists.
  pose proof UNSAFE_NETWORKS_ok as Hok. rewrite List.forallb_forall in Hok.
  split.
  - intros (net & Hin & Hc).
    exists (range_of net). split.
    + apply (proj1 (UNSAFE_NETWORKS_ranges (range_of net))).
      exact (List.in_map range_of UNSAFE_NETWORKS net Hin).
    + exact (proj1 (contains_falls_inside net a (Hok net Hin) Ha) Hc).
  - intros (r & Hin & Hr).
    apply (proj2 (UNSAFE_NETWORKS_ranges r)) in Hin.
    apply (proj1 (List.in_map_iff range_of UNSAFE_NETWORKS r)) in Hin.
    destruct Hin as (net & <- & Hin).
    exists net. split; [assumption |].
    exact (proj2 (contains_falls_inside net a (Hok net Hin) Ha) Hr).
Qed.

(** **** The parser returns well-formed addresses *)

Lemma int10_nonneg (cs : list ascii) (acc : Z) :
  forallb Text.is_ascii_digit cs = true -> 0 <= acc ->
  0 <= fold_left (fun acc c => acc * 10 + (Z.of_nat (nat_of_ascii c) - 48)) cs acc.
Proof.
  revert acc. induction cs as [| c cs IH]; intros acc Hd Hacc; simpl in *; [lia |].
  apply andb_prop in Hd. destruct Hd as [Hc Hd].
  apply IH; [assumption |].
  unfold Text.is_ascii_digit in Hc. lia.
Qed.

Lemma _parse_octet_range (s : string) (v : Z) :
  ipaddress._parse_octet s = Some v -> 0 <= v <= 255.
Proof.
  unfold ipaddress._parse_octet.
  destruct (Text.is_empty s); [discriminate |].
  destruct (forallb Text.is_ascii_digit (Text.chars s)) eqn:Hd; [| discriminate].
  cbn [negb].
  destruct (3 <? String.length s)%nat; [discriminate |].
  destruct (negb (String.eqb s "0") && Text.startswith "0" s); [discriminate |].
  destruct (Z.ltb_spec 255 (Text.int10 s)); [discriminate |].
  intros [= <-]. split; [| assumption].
  unfold Text.int10. apply int10_nonneg; [assumption | lia].
Qed.

Lemma from_octets_range (octets : list string) (acc n : Z) (k : Z) :
  ipaddress.from_octets octets acc = Some n ->
  0 <= k -> 0 <= acc < 256 ^ k ->
  0 <= n < 256 ^ (k + Z.of_nat (length octets)).
Proof.
  revert acc k. induction octets as [| o rest IH]; intros acc k H Hk Hacc.
  - simpl in *. injection H as <-. now rewrite Z.add_0_r.
  - cbn [ipaddress.from_octets] in H.
    destruct (ipaddress._parse_octet o) as [v |] eqn:Ho; [| discriminate].
    apply _parse_octet_range in Ho.
    apply IH with (k := k + 1) in H; [| lia |].
    + replace (k + Z.of_nat (length (o :: rest))) with (k + 1 + Z.of_nat (length rest))
        by (cbn [length]; lia).
      exact H.
    + rewrite Z.pow_add_r by lia. lia.
Qed.

Lemma parse_v4_range (text : string) (n : Z) :
  ipaddress.parse_v4 text = Some n -> 0 <= n < 2 ^ 32.
Proof.
  unfold ipaddress.parse_v4, ipaddress.v4_int_from_string.
  destruct (Text.contains "/" text); [discriminate |].
  destruct (Text.is_empty text); [discriminate |].
  destruct (Nat.eqb_spec (length (Text.split "." text)) 4) as [Hlen | ]; [| discriminate].
  cbn [negb]. intros H.
  apply from_octets_range with (k := 0) in H; [| lia | lia].
  rewrite Hlen in H. exact H.
Qed.

Lemma int16_range (cs : list ascii) (acc : Z) (k : Z) :
  forallb Text.is_hex_digit cs = true -> 0 <= k -> 0 <= acc < 16 ^ k ->
  0 <= fold_left (fun acc c => acc * 16 + default 0 (Text.hex_value c)) cs acc
    < 16 ^ (k + Z.of_nat (length cs)).
Proof.
  revert acc k. induction cs as [| c cs IH]; intros acc k Hd Hk Hacc.
  - simpl. now rewrite Z.add_0_r.
  - cbn [forallb] in Hd. apply andb_prop in Hd. destruct Hd as [Hc Hd].
    cbn [fold_left].
    replace (k + Z.of_nat (length (c :: cs))) with (k + 1 + Z.of_nat (length cs))
      by (cbn [length]; lia).
    apply IH; [assumption | lia |].
    assert (Hv : 0 <= default 0 (Text.hex_value c) < 16).
    { clear. unfold Text.hex_value. cbv zeta.
      generalize (Z.of_nat (nat_of_ascii c)). intros n.
      repeat match goal with
             | |- context [Z.leb ?a ?b] => destruct (Z.leb_spec a b)
             end; cbn [andb default from_option id]; lia. }
    rewrite Z.pow_add_r by lia. lia.
Qed.

Lemma _parse_hextet_range (s : string) (v : Z) :
  ipaddress._parse_hextet s = Some v -> 0 <= v < 2 ^ 16.
Proof.
  unfold ipaddress._parse_hextet.
  destruct (forallb Text.is_hex_digit (Text.chars s)) eqn:Hd; [| discriminate].
  cbn [negb].
  destruct (Nat.ltb_spec 4 (String.length s)) as [| Hlen]; [discriminate |].
  destruct (Text.is_empty s); [discriminate |].
  intros [= <-]. unfold Text.int16.
  pose proof (int16_range (Text.chars s) 0 0 Hd ltac:(lia) ltac:(lia)) as H.
  assert (Hl : length (Text.chars s) = String.length s).
  { clear. unfold Text.chars. induction s; simpl; congruence. }
  rewrite Hl in H. split; [lia |].
  apply Z.lt_le_trans with (1 := proj2 H).
  change (2 ^ 16) with (16 ^ 4). apply Z.pow_le_mono_r; lia.
Qed.

Lemma hextets_range (parts : list string) (acc n : Z) (k : Z) :
  ipaddress.hextets parts acc = Some n ->
  0 <= k -> 0 <= acc < 2 ^ (16 * k) ->
  0 <= n < 2 ^ (16 * (k + Z.of_nat (length parts))).
Proof.
  revert acc k. induction parts as [| p rest IH]; intros acc k H Hk Hacc.
  - simpl in *. injection H as <-. now rewrite Z.add_0_r.
  - cbn [ipaddress.hextets] in H.
    destruct (ipaddress._parse_hextet p) as [v |] eqn:Hp; [| discriminate].
    apply _parse_hextet_range in Hp.
    apply IH with (k := k + 1) in H; [| lia |].
    + replace (k + Z.of_nat (length (p :: rest))) with (k + 1 + Z.of_nat (length rest))
        by (cbn [length]; lia).
      exact H.
    + assert (Hs : Z.shiftl acc 16 = acc * 2 ^ 16) by (apply Z.shiftl_mul_pow2; lia).
      pose proof (Z.add_lor_land (Z.shiftl acc 16) v) as Hadd.
      assert (0 <= Z.land (Z.shiftl acc 16) v) by (apply Z.land_nonneg; lia).
      assert (0 <= Z.lor (Z.shiftl acc 16) v) by (apply Z.lor_nonneg; lia).
      replace (16 * (k + 1)) with (16 * k + 16) by lia.
      rewrite Z.pow_add_r by lia. lia.
Qed.

Lemma v6_int_from_string_range (text : string) (n : Z) :
  ipaddress.v6_int_from_string text = Some n -> 0 <= n < 2 ^ 128.
Proof.
  unfold ipaddress.v6_int_from_string, ipaddress._HEXTET_COUNT. intros H.
  destruct (Text.is_empty text); [discriminate |].
  destruct (length (Text.split ":" text) <? 3)%nat; [discriminate |].
  match type of H with
  | match ?x with _ => _ end = _ => destruct x as [parts |]; [| discriminate]
  end.
  destruct (8 + 1 <? length parts)%nat; [discriminate |].
  destruct (ipaddress.find_skip _ _ _) as [[skip_index |] |]; [| | discriminate].
  - match type of H with
    | match ?x with _ => _ end = _ => destruct x as [parts_hi |] eqn:Ehi; [| discriminate]
    end.
    match type of H with
    | match ?x with _ => _ end = _ => destruct x as [parts_lo |] eqn:Elo; [| discriminate]
    end.
    destruct (Nat.ltb_spec 8 (parts_hi + parts_lo + 1)) as [| Hsum]; [discriminate |].
    destruct (ipaddress.hextets (firstn parts_hi parts) 0) as [ip_int |] eqn:Hhi;
      [| discriminate].
    apply hextets_range with (k := 0) in Hhi; [| lia | lia].
    pose proof (length_firstn parts_hi parts) as Lhi.
    pose proof (length_skipn (length parts - parts_lo) parts) as Llo.
    set (a := length (firstn parts_hi parts)) in *.
    set (b := length (skipn (length parts - parts_lo) parts)) in *.
    set (sk := (8 - (parts_hi + parts_lo))%nat) in *.
    apply hextets_range with (k := Z.of_nat a + Z.of_nat sk) in H; [| lia |].
    + split; [lia |]. apply Z.lt_le_trans with (1 := proj2 H).
      apply Z.pow_le_mono_r; lia.
    + rewrite Z.shiftl_mul_pow2 by lia.
      replace (16 * (Z.of_nat a + Z.of_nat sk)) with (16 * (0 + Z.of_nat a) + 16 * Z.of_nat sk) by lia.
      rewrite Z.pow_add_r by lia.
      assert (0 < 2 ^ (16 * Z.of_nat sk)) by (apply Z.pow_pos_nonneg; lia).
      nia.
  - destruct (Nat.eqb_spec (length parts) 8) as [Hlen |]; [| discriminate].
    cbn [negb] in H.
    destruct (Text.is_empty (hd "" parts)); [discriminate |].
    destruct (Text.is_empty (List.last parts "")); [discriminate |].
    apply hextets_range with (k := 0) in H; [| lia | lia].
    rewrite Hlen in H. exact H.
Qed.

Lemma ip_address_well_formed (text : string) (a : ipaddress.address) :
  ipaddress.ip_address text = Some a -> well_formed a.
Proof.
  unfold ipaddress.ip_address, well_formed.
  destruct (ipaddress.parse_v4 text) as [n |] eqn:H4.
  - intros [= <-]. apply parse_v4_range in H4. exact H4.
  - unfold ipaddress.parse_v6.
    destruct (Text.contains "/" text); [discriminate |].
    destruct (ipaddress._split_scope_id text) as [[addr scope] |]; [| discriminate].
    destruct (ipaddress.v6_int_from_string addr) as [n |] eqn:H6; [| discriminate].
    intros [= <-]. apply v6_int_from_string_range in H6. exact H6.
Qed.

(** The verdict of [ip_is_safe] on a text that parses. *)
Lemma ip_is_safe_parsed (text : string) (a : ipaddress.address) :
  ipaddress.ip_address text = Some a ->
  ip_is_safe text = inr (not_in_any a UNSAFE_NETWORKS).
Proof. unfold ip_is_safe. now intros ->. Qed.

(** C1. For every text that is a valid address of version 4 or 6,
    [ip_is_safe] returns [False] exactly when the address falls inside
    one of the ranges of the denylist of the specification (sixteen of
    version 4, thirteen of version 6) of its own family, and [True]
    otherwise; [8.8.8.8] and [2606:2800:220:1:248:1893:25c8:1946] are
    safe. *)
Theorem C1_ip_is_safe_iff_denied (text : string) (a : ipaddress.address) :
  ipaddress.ip_address text = Some a ->
  (ip_is_safe text = inr false <-> Spec.denied a)
  /\ (ip_is_safe text = inr true <-> ~ Spec.denied a)
  /\ length Spec.denylist_v4 = 16%nat
  /\ length Spec.denylist_v6 = 13%nat
  /\ ip_is_safe "8.8.8.8" = inr true
  /\ ip_is_safe "2606:2800:220:1:248:1893:25c8:1946" = inr true.
Proof.
  intros Hparse.
  pose proof (ip_address_well_formed text a Hparse) as Hwf.
  pose proof (not_in_any_denied a Hwf) as Hden.
  rewrite (ip_is_safe_parsed text a Hparse).
  generalize dependent (not_in_any a UNSAFE_NETWORKS). intros b Hden.
  split; [| split; [| split; [| split; [| split]]]].
  - split.
    + intros [= E]. exact (proj1 Hden E).
    + intros D. f_equal. exact (proj2 Hden D).
  - split.
    + intros [= E] D. pose proof (proj2 Hden D) as E'. congruence.
    + intros ND. f_equal. destruct b; [reflexivity |].
      exfalso. exact (ND (proj1 Hden eq_refl)).
  - vm_compute; reflexivity.
  - vm_compute; reflexivity.
  - vm_compute; reflexivity.
  - vm_compute; reflexivity.
Qed.

(** C1 at an address of the private range. *)
Lemma C1_ip_is_safe_iff_denied_witness :
  ipaddress.ip_address "10.10.10.58" = Some (ipaddress.IPv4Address 168430138)
  /\ (ip_is_safe "10.10.10.58" = inr false
      <-> Spec.denied (ipaddress.IPv4Address 168430138)).
Proof.
  assert (H : ipaddress.ip_address "10.10.10.58" = Some (ipaddress.IPv4Address 168430138))
    by (vm_compute; reflexivity).
  split; [exact H |].
  exact (proj1 (C1_ip_is_safe_iff_denied "10.10.10.58" (ipaddress.IPv4Address 168430138) H)).
Defined.

(** *** The dialer *)

Section DialerFacts.

Variable timeout_value : Type.
Variable env : log timeout_value -> call timeout_value -> option exn.
Variable str_timeout : timeout timeout_value -> string.

Implicit Types (g : resolver) (name : string) (self : HTTPConnection timeout_value)
         (cands pre post : list addrinfo).
Implicit Types (l : log timeout_value) (res : addrinfo) (err : option exn)
         (tmo : timeout timeout_value) (opts : list sockopt) (cs : list (call timeout_value))
         (body evs : list (event timeout_value)) (so : option (list sockopt))
         (st : nat * list nat).

(** The log of a list of calls: the calls performed are a prefix of the
    list, only the last of them can have raised, and the result is what
    the last one raised. *)
Lemma perform_all_log cs l r l' :
  perform_all env cs l = (r, l') ->
  exists evs,
    l' = l ++ evs
    /\ map ev_call evs `prefix_of` cs
    /\ match r with
       | inr _ => map ev_call evs = cs /\ Forall raised_nothing evs
       | inl e => exists evs0 c, evs = evs0 ++ [Event c (Some e)] /\ Forall raised_nothing evs0
       end.
Proof.
  revert l. induction cs as [| c cs IH]; intros l H.
  - injection H as <- <-. exists []. rewrite app_nil_r.
    split; [reflexivity |]. split; [exists []; reflexivity |].
    split; [reflexivity | constructor].
  - cbn [perform_all] in H. unfold bind, perform in H.
    destruct (env l c) as [e |] eqn:E.
    + injection H as <- <-. exists [Event c (Some e)]. split; [reflexivity |]. split.
      * simpl. exists cs. reflexivity.
      * exists [], c. split; [reflexivity | constructor].
    + apply IH in H. destruct H as (evs & -> & Hp & Hr).
      exists (Event c None :: evs). split; [now rewrite <- app_assoc |]. split.
      * simpl. now apply prefix_cons.
      * destruct r as [e | u].
        -- destruct Hr as (evs0 & c' & -> & Hok).
           exists (Event c None :: evs0), c'. split; [reflexivity |].
           constructor; [reflexivity | assumption].
        -- destruct Hr as [Hc Hok]. split; [simpl; now f_equal |].
           constructor; [reflexivity | assumption].
Qed.

Lemma set_options_perform_all sock opts l :
  set_options env sock opts l = perform_all env (map (setsockopt sock) opts) l.
Proof.
  revert l. induction opts as [| o opts IH]; intros l; [reflexivity |].
  cbn [set_options map perform_all]. unfold bind.
  destruct (perform env (setsockopt sock o) l) as [[e | u] l1]; [reflexivity | apply IH].
Qed.

Lemma perform_all_app cs1 cs2 l :
  perform_all env (cs1 ++ cs2) l = bind (perform_all env cs1) (fun _ => perform_all env cs2) l.
Proof.
  revert l. induction cs1 as [| c cs1 IH]; intros l; [reflexivity |].
  cbn [app perform_all]. unfold bind in *.
  destruct (perform env c l) as [[e | u] l1]; [reflexivity | apply IH].
Qed.

(** With a list of options the [try] block performs the planned calls. *)
Lemma configure_and_connect_planned sock res tmo opts l :
  configure_and_connect env sock (sa res) tmo (Some opts) l
  = perform_all env (tl (planned sock res tmo opts)) l.
Proof.
  unfold configure_and_connect, planned. cbn [tl].
  rewrite perform_all_app. unfold bind.
  rewrite set_options_perform_all.
  destruct (perform_all env (map (setsockopt sock) opts) l) as [[e | u] l1]; [reflexivity |].
  destruct tmo as [| t]; cbn [app perform_all]; unfold bind, ret.
  - destruct (perform env (connect sock (sa res)) l1) as [[e | []] l2]; reflexivity.
  - destruct (perform env (settimeout sock t) l1) as [[e | u'] l2]; [reflexivity |].
    destruct (perform env (connect sock (sa res)) l2) as [[e | []] l3]; reflexivity.
Qed.

(** An unsafe entry is passed over: no call, no change of [err]. *)
Lemma loop_body_unsafe res tmo so err l :
  is_unsafe res = true -> loop_body env tmo so res err l = (Next err, l).
Proof.
  unfold is_unsafe, loop_body.
  destruct (ip_is_safe (sa_host (sa res))) as [e | [|]]; try discriminate. reflexivity.
Qed.

Lemma for_loop_app tmo so cands1 cands2 err l :
  for_loop env tmo so (cands1 ++ cands2) err l
  = match for_loop env tmo so cands1 err l with
    | (Next err', l') => for_loop env tmo so cands2 err' l'
    | stop => stop
    end.
Proof.
  revert err l. induction cands1 as [| res rest IH]; intros err l; [reflexivity |].
  cbn [app for_loop].
  destruct (loop_body env tmo so res err l) as [[err' | sock | e] l']; auto.
Qed.

(** Leaving the unsafe entries out changes nothing. *)
Lemma for_loop_without_unsafe tmo so cands err l :
  for_loop env tmo so (List.filter (fun res => negb (is_unsafe res)) cands) err l
  = for_loop env tmo so cands err l.
Proof.
  revert err l. induction cands as [| res rest IH]; intros err l; [reflexivity |].
  cbn [List.filter for_loop].
  destruct (is_unsafe res) eqn:U; cbn [negb].
  - rewrite (loop_body_unsafe res tmo so err l U). apply IH.
  - cbn [for_loop].
    destruct (loop_body env tmo so res err l) as [[err' | sock | e] l']; auto.
Qed.

(** A list of unsafe entries only is passed over entirely. *)
Lemma for_loop_only_unsafe tmo so cands err l :
  forallb is_unsafe cands = true -> for_loop env tmo so cands err l = (Next err, l).
Proof.
  induction cands as [| res rest IH]; intros H; [reflexivity |].
  cbn [forallb] in H. apply andb_prop in H. destruct H as [U H].
  cbn [for_loop]. rewrite (loop_body_unsafe res tmo so err l U). auto.
Qed.

(** **** Book-keeping over the log *)

Lemma tracked_app l evs : tracked (l ++ evs) = fold_left track evs (tracked l).
Proof. unfold tracked. apply fold_left_app. Qed.

Lemma tracked_fresh l : fst (tracked l) = fresh l.
Proof.
  unfold tracked, fresh.
  assert (G : forall l st, fst (fold_left track l st)
                           = (fst st + length (List.filter is_created l))%nat).
  { clear. induction l as [| ev l IH]; intros st; simpl; [lia |].
    rewrite IH. destruct ev as [[] []]; simpl; lia. }
  now rewrite G.
Qed.

Lemma tracked_bound l : Forall (fun s => (s < fresh l)%nat) (snd (tracked l)).
Proof.
  rewrite <- tracked_fresh. unfold tracked.
  assert (G : forall l st, Forall (fun s => (s < fst st)%nat) (snd st) ->
                           Forall (fun s => (s < fst (fold_left track l st))%nat)
                                  (snd (fold_left track l st))).
  { clear. induction l as [| ev l IH]; intros st H; simpl; [assumption |].
    apply IH. destruct ev as [[] []]; simpl; try assumption.
    - apply Forall_app. split; [| repeat constructor].
      eapply Forall_impl; [exact H | simpl; lia].
    - rewrite List.Forall_forall in *. intros x Hx. apply List.filter_In in Hx. apply H, Hx.
    - rewrite List.Forall_forall in *. intros x Hx. apply List.filter_In in Hx. apply H, Hx. }
  apply G. constructor.
Qed.

Lemma track_plain body st :
  Forall (fun ev => is_plain (ev_call ev) = true) body -> fold_left track body st = st.
Proof.
  revert st. induction body as [| ev body IH]; intros st H; [reflexivity |].
  inversion H as [| ? ? Hev Hrest]; subst. simpl. rewrite <- (IH st Hrest) at 2.
  f_equal. destruct ev as [[] []]; simpl in *; try discriminate; reflexivity.
Qed.

Lemma open_sockets_tracked l : open_sockets l = snd (tracked l).
Proof. reflexivity. Qed.

(** A socket that is created, used and not closed is one more open
    socket. *)
Lemma open_sockets_created l a s p body :
  Forall (fun ev => is_plain (ev_call ev) = true) body ->
  open_sockets (l ++ Event (socket_socket a s p) None :: body) = open_sockets l ++ [fresh l].
Proof.
  intros Hb. rewrite !open_sockets_tracked, tracked_app. cbn [fold_left].
  rewrite track_plain by assumption. cbn [track snd]. now rewrite tracked_fresh.
Qed.

(** A socket that is created, used and closed leaves the open sockets as
    they were. *)
Lemma open_sockets_closed l a s p body :
  Forall (fun ev => is_plain (ev_call ev) = true) body ->
  open_sockets (l ++ Event (socket_socket a s p) None :: body ++ [Event (close (fresh l)) None])
  = open_sockets l.
Proof.
  intros Hb.
  replace (l ++ Event (socket_socket a s p) None :: body ++ [Event (close (fresh l)) None])
    with ((l ++ Event (socket_socket a s p) None :: body) ++ [Event (close (fresh l)) None])
    by (rewrite <- app_assoc; reflexivity).
  rewrite open_sockets_tracked, tracked_app. cbn [fold_left track snd].
  fold (open_sockets (l ++ Event (socket_socket a s p) None :: body)).
  rewrite open_sockets_created by assumption.
  rewrite List.filter_app. cbn [List.filter]. rewrite Nat.eqb_refl. cbn [negb].
  rewrite app_nil_r. rewrite open_sockets_tracked.
  pose proof (tracked_bound l) as B.
  induction (snd (tracked l)) as [| x xs IH]; [reflexivity |].
  inversion B; subst. cbn [List.filter].
  destruct (Nat.eqb_spec x (fresh l)); [lia |]. cbn [negb]. f_equal. auto.
Qed.

(** A socket creation that raised opens nothing. *)
Lemma open_sockets_refused l a s p e :
  open_sockets (l ++ [Event (socket_socket a s p) (Some e)]) = open_sockets l.
Proof. unfold open_sockets. rewrite tracked_app. reflexivity. Qed.

Lemma attempted_app l evs : attempted (l ++ evs) = attempted l ++ attempted evs.
Proof.
  induction l as [| ev l IH]; [reflexivity |].
  cbn [app attempted]. rewrite IH. destruct (ev_call ev); reflexivity.
Qed.

Lemma attempted_plain body :
  Forall (fun ev => is_plain (ev_call ev) = true) body -> attempted body = [].
Proof.
  induction 1 as [| ev body Hev _ IH]; [reflexivity |].
  cbn [attempted]. rewrite IH.
  destruct (ev_call ev); try discriminate; reflexivity.
Qed.

Lemma planned_tail_plain sock res tmo opts :
  Forall (fun c => is_plain c = true) (tl (planned sock res tmo opts)).
Proof.
  unfold planned. cbn [tl]. rewrite !Forall_app. split; [| split].
  - apply Forall_map. apply Forall_true. reflexivity.
  - destruct tmo; repeat constructor.
  - repeat constructor.
Qed.

Lemma prefix_plain evs cs :
  map ev_call evs `prefix_of` cs ->
  Forall (fun c => is_plain c = true) cs ->
  Forall (fun ev => is_plain (ev_call ev) = true) evs.
Proof.
  intros [k ->] H. apply Forall_app in H. destruct H as [H _].
  now apply Forall_map in H.
Qed.

(** **** The shape of one round *)

(** An entry that is not safe adds nothing to the log. *)
Lemma loop_body_not_safe res tmo so err l fl l' :
  is_safe res = false -> loop_body env tmo so res err l = (fl, l') ->
  l' = l /\ (fl = Next err \/ exists e, fl = Raise e).
Proof.
  unfold is_safe, loop_body.
  destruct (ip_is_safe (sa_host (sa res))) as [e | [|]]; try discriminate;
    intros _ [= <- <-]; eauto.
Qed.

(** The three ways a round on a safe entry can go: the socket is not
    created; it is created and the round leaves with it open (returned,
    or under an exception the handler does not catch); it is created, a
    call on it raises a [socket.error], the handler records it and
    closes the socket. *)
Lemma loop_body_safe res tmo so err l fl l' :
  is_safe res = true -> loop_body env tmo so res err l = (fl, l') ->
  let create := socket_socket (af res) (socktype res) (proto res) in
  (exists e, l' = l ++ [Event create (Some e)]
             /\ fl = (if is_socket_error e then Next (Some e) else Raise e))
  \/ (exists body, Forall (fun ev => is_plain (ev_call ev) = true) body
                   /\ l' = l ++ Event create None :: body
                   /\ (fl = Return (fresh l)
                       \/ exists e, fl = Raise e /\ is_socket_error e = false))
  \/ (exists body e, Forall (fun ev => is_plain (ev_call ev) = true) body
                     /\ l' = l ++ Event create None :: body ++ [Event (close (fresh l)) None]
                     /\ fl = Next (Some e) /\ is_socket_error e = true
                     /\ exists body0 c, body = body0 ++ [Event c (Some e)]).
Proof.
  unfold is_safe, loop_body, new_socket.
  destruct (ip_is_safe (sa_host (sa res))) as [e | [|]]; try discriminate.
  intros _. cbv zeta.
  destruct (env l (socket_socket (af res) (socktype res) (proto res))) as [e |].
  - intros H. left. exists e. destruct (is_socket_error e); injection H as <- <-; auto.
  - destruct (configure_and_connect env (fresh l) (sa res) tmo so
                (l ++ [Event (socket_socket (af res) (socktype res) (proto res)) None]))
      as [r l2] eqn:Hbody.
    assert (Hshape : exists body, Forall (fun ev => is_plain (ev_call ev) = true) body
              /\ l2 = l ++ Event (socket_socket (af res) (socktype res) (proto res)) None
                         :: body
              /\ forall e, r = inl e -> is_socket_error e = true ->
                           exists body0 c, body = body0 ++ [Event c (Some e)]).
    { destruct so as [opts |].
      - rewrite configure_and_connect_planned in Hbody.
        apply perform_all_log in Hbody. destruct Hbody as (evs & -> & Hp & Hr).
        exists evs. split; [| split; [now rewrite <- app_assoc |]].
        + eapply prefix_plain; [exact Hp | apply planned_tail_plain].
        + intros e -> _. destruct Hr as (evs0 & c & -> & _). eauto.
      - injection Hbody as <- <-. exists []. split; [constructor |].
        split; [reflexivity |]. intros e [= <-] E. discriminate E. }
    destruct Hshape as (body & Hplain & -> & Hlast).
    destruct r as [e | u].
    + destruct (is_socket_error e) eqn:Se; intros [= <- <-].
      * right. right. exists body, e. unfold do_close.
        rewrite <- app_assoc. auto 6.
      * right. left. exists body. eauto 6.
    + intros [= <- <-]. right. left. exists body. auto.
Qed.

Lemma events_all_passed evs cs :
  map ev_call evs = cs -> Forall raised_nothing evs ->
  evs = map (fun c => Event c None) cs.
Proof.
  intros <- H. induction H as [| [c r] evs Hev _ IH]; [reflexivity |].
  cbn [map]. unfold raised_nothing in Hev. cbn in Hev. subst r. now f_equal.
Qed.

(** A round that goes on to the next entry leaves no socket open. *)
Lemma loop_body_next res tmo so err l err' l' :
  loop_body env tmo so res err l = (Next err', l') ->
  open_sockets l' = open_sockets l
  /\ attempted l' = attempted l ++ (if is_safe res then [socket_args res] else []).
Proof.
  intros H. destruct (is_safe res) eqn:S.
  - destruct (loop_body_safe res tmo so err l _ _ S H)
      as [(e & -> & _) | [(body & _ & _ & [Hfl | (e & Hfl & _)]) | (body & e & Hb & -> & _)]];
      try discriminate.
    + rewrite open_sockets_refused, attempted_app. auto.
    + rewrite open_sockets_closed by assumption.
      rewrite attempted_app. cbn [attempted ev_call].
      rewrite attempted_app, (attempted_plain body Hb). auto.
  - destruct (loop_body_not_safe res tmo so err l _ _ S H) as [-> _].
    now rewrite app_nil_r.
Qed.

(** A round that returns has performed the planned calls on a new
    socket, all of them without an exception, and leaves that socket
    open. *)
Lemma loop_body_return res tmo so err l sock l' :
  loop_body env tmo so res err l = (Return sock, l') ->
  is_safe res = true
  /\ sock = fresh l
  /\ open_sockets l' = open_sockets l ++ [sock]
  /\ attempted l' = attempted l ++ [socket_args res]
  /\ exists opts, so = Some opts
                  /\ l' = l ++ map (fun c => Event c None) (planned sock res tmo opts).
Proof.
  intros H. destruct (is_safe res) eqn:S.
  2: { destruct (loop_body_not_safe res tmo so err l _ _ S H) as [_ [? | [e ?]]]; discriminate. }
  split; [reflexivity |].
  pose proof H as H'.
  destruct (loop_body_safe res tmo so err l _ _ S H)
    as [(e & _ & Hfl) | [(body & Hb & -> & [[= ->] | (e & Hfl & _)]) | (body & e & _ & _ & Hfl & _)]];
    try discriminate.
  { destruct (is_socket_error e); discriminate. }
  split; [reflexivity |]. split; [now apply open_sockets_created |].
  split.
  { rewrite attempted_app. cbn [attempted ev_call]. now rewrite (attempted_plain body Hb). }
  revert H'. unfold loop_body, new_socket, is_safe in *.
  destruct (ip_is_safe (sa_host (sa res))) as [e | [|]]; try discriminate.
  destruct (env l (socket_socket (af res) (socktype res) (proto res))) as [e |];
    [destruct (is_socket_error e); discriminate |].
  destruct so as [opts |].
  - rewrite configure_and_connect_planned.
    destruct (perform_all env _ _) as [[e | u] l2] eqn:Hp;
      [destruct (is_socket_error e); discriminate |].
    intros [= E]. exists opts. split; [reflexivity |].
    apply perform_all_log in Hp. destruct Hp as (evs & -> & _ & Hc & Hok).
    rewrite <- E, <- app_assoc. f_equal.
    rewrite (events_all_passed evs _ Hc Hok). reflexivity.
  - cbn. intros E. discriminate E.
Qed.

(** A loop that runs to its end has tried the safe entries in order and
    leaves no socket open. *)
Lemma for_loop_next tmo so cands err l err' l' :
  for_loop env tmo so cands err l = (Next err', l') ->
  open_sockets l' = open_sockets l
  /\ attempted l' = attempted l ++ map socket_args (List.filter is_safe cands).
Proof.
  revert err l. induction cands as [| res rest IH]; intros err l H.
  - injection H as <- <-. now rewrite app_nil_r.
  - cbn [for_loop] in H.
    destruct (loop_body env tmo so res err l) as [[err1 | sock | e] l1] eqn:Hb;
      try discriminate.
    apply loop_body_next in Hb. destruct Hb as [Ho Ha].
    apply IH in H. destruct H as [Ho' Ha'].
    split; [congruence |].
    rewrite Ha', Ha. cbn [List.filter].
    destruct (is_safe res); cbn [map]; rewrite <- app_assoc; reflexivity.
Qed.

(** A loop that returns leaves exactly the returned socket open. *)
Lemma for_loop_return tmo so cands err l sock l' :
  for_loop env tmo so cands err l = (Return sock, l') ->
  open_sockets l' = open_sockets l ++ [sock].
Proof.
  revert err l. induction cands as [| res rest IH]; intros err l H; [discriminate |].
  cbn [for_loop] in H.
  destruct (loop_body env tmo so res err l) as [[err1 | s | e] l1] eqn:Hb;
    try discriminate.
  - apply loop_body_next in Hb. destruct Hb as [Ho _].
    apply IH in H. congruence.
  - injection H as <- <-. apply loop_body_return in Hb. tauto.
Qed.

(** **** The function as a whole *)

Lemma create_connection_resolved g name p tmo so l cands :
  resolved g name p = inr cands ->
  create_connection env g (name, p) tmo so l = dial env cands tmo so l.
Proof. unfold resolved, create_connection. now intros ->. Qed.

(** C2. The result of [create_connection], value or exception with its
    class and text, and the log of socket calls with it, are those of the
    same call on the candidate list without its unsafe entries, also
    through [_new_conn]; an unsafe entry makes no call and records no
    error; a list of unsafe entries only gives what the empty list
    gives. *)
Theorem C2_unsafe_entries_are_invisible g address tmo so l :
  create_connection env g address tmo so l
  = create_connection env (without_unsafe g) address tmo so l
  /\ (forall self,
        _new_conn str_timeout env g self l
        = _new_conn str_timeout env (without_unsafe g) self l)
  /\ (forall res err,
        is_unsafe res = true -> loop_body env tmo so res err l = (Next err, l))
  /\ (forall cands,
        forallb is_unsafe cands = true ->
        create_connection env (answers cands) address tmo so l
        = create_connection env (answers []) address tmo so l).
Proof.
  assert (E : forall address tmo so,
             create_connection env g address tmo so l
             = create_connection env (without_unsafe g) address tmo so l).
  { clear. intros [name p] tmo so. unfold create_connection, without_unsafe.
    destruct (g _ _ _ _ _ _) as [e | cands]; [reflexivity |].
    unfold dial. now rewrite for_loop_without_unsafe. }
  split; [apply E |]. split; [| split].
  - intros self. unfold _new_conn. now rewrite E.
  - intros res err. apply loop_body_unsafe.
  - intros cands U. destruct address as [name p].
    unfold create_connection, answers, dial.
    now rewrite (for_loop_only_unsafe tmo so cands None l U).
Qed.

(** C3, as the code has it. When the resolver gives no entry, or unsafe
    entries only, [create_connection] makes no socket call and raises
    [socket.error] with the fixed text "getaddrinfo returns an empty
    list", whatever the entries were; [_new_conn] turns it into a
    [NewConnectionError] that carries that text. *)
Theorem C3_nothing_to_dial_error g name p tmo so l cands :
  resolved g name p = inr cands ->
  forallb is_unsafe cands = true ->
  create_connection env g (name, p) tmo so l
  = (inl (Exn socket_error "getaddrinfo returns an empty list"), l)
  /\ (forall self,
        Text.rstrip "." (host self) = name -> port self = p ->
        conn_timeout self = tmo -> extra_kw self = so ->
        _new_conn str_timeout env g self l
        = (inl (Exn NewConnectionError
                    "Failed to establish a new connection: getaddrinfo returns an empty list"),
           l)).
Proof.
  intros Hg U.
  assert (E : create_connection env g (name, p) tmo so l
              = (inl (Exn socket_error "getaddrinfo returns an empty list"), l)).
  { rewrite (create_connection_resolved g name p tmo so l cands Hg).
    unfold dial. now rewrite (for_loop_only_unsafe tmo so cands None l U). }
  split; [exact E |].
  intros self <- <- <- <-. unfold _new_conn. rewrite E. reflexivity.
Qed.

(** C4. When every entry before [c] is passed over or fails, and the
    round on [c] returns a socket, [create_connection] returns that
    socket: the log ends with the planned calls of [c], none of which
    raised, the sockets were asked for in the order of the resolver for
    the safe entries up to [c] and for no later entry, and every socket
    of an earlier entry was closed before [c] was tried. *)
Theorem C4_first_reachable_wins g name p tmo so l pre c post err1 l1 sock l2 :
  resolved g name p = inr (pre ++ c :: post) ->
  for_loop env tmo so pre None l = (Next err1, l1) ->
  loop_body env tmo so c err1 l1 = (Return sock, l2) ->
  create_connection env g (name, p) tmo so l = (inr sock, l2)
  /\ is_safe c = true
  /\ (exists opts, so = Some opts
                   /\ l2 = l1 ++ map (fun c => Event c None) (planned sock c tmo opts))
  /\ attempted l2
     = attempted l ++ map socket_args (List.filter is_safe pre) ++ [socket_args c]
  /\ open_sockets l1 = open_sockets l
  /\ open_sockets l2 = open_sockets l ++ [sock].
Proof.
  intros Hg Hpre Hc.
  pose proof (for_loop_next tmo so pre None l err1 l1 Hpre) as [Ho Ha].
  pose proof (loop_body_return c tmo so err1 l1 sock l2 Hc) as (S & _ & Ho2 & Ha2 & Hlog).
  split; [| split; [exact S | split; [exact Hlog | split; [| split]]]].
  - rewrite (create_connection_resolved g name p tmo so l _ Hg).
    unfold dial. rewrite for_loop_app, Hpre. cbn [for_loop]. now rewrite Hc.
  - rewrite Ha2, Ha, <- app_assoc. reflexivity.
  - exact Ho.
  - rewrite Ho2, Ho. reflexivity.
Qed.

(** C5. When every entry before [c] is passed over or fails, the round
    on the safe entry [c] fails with [e], and every entry after [c] is
    unsafe, [create_connection] raises [e], the [socket.error] raised by
    the last call made for [c], whatever the earlier rounds recorded;
    [_new_conn] turns a [socket.timeout] into a [ConnectTimeoutError]
    whose text is "Connection to HOST timed out. (connect timeout=T)",
    with [self.host] for HOST and the printed timeout of the connection
    for T, and any other [socket.error] into a [NewConnectionError]
    whose text is "Failed to establish a new connection: " followed by
    the text of [e]. *)
Theorem C5_last_error_surfaces g self l pre c post err1 l1 e l2 :
  resolved g (Text.rstrip "." (host self)) (port self) = inr (pre ++ c :: post) ->
  for_loop env (conn_timeout self) (extra_kw self) pre None l = (Next err1, l1) ->
  is_safe c = true ->
  loop_body env (conn_timeout self) (extra_kw self) c err1 l1 = (Next (Some e), l2) ->
  forallb is_unsafe post = true ->
  create_connection env g (Text.rstrip "." (host self), port self)
                    (conn_timeout self) (extra_kw self) l
  = (inl e, l2)
  /\ is_socket_error e = true
  /\ (exists evs c0 closing,
        l2 = l1 ++ evs ++ Event c0 (Some e) :: closing
        /\ (closing = [] \/ closing = [Event (close (fresh l1)) None]))
  /\ _new_conn str_timeout env g self l
     = (inl (if is_socket_timeout e
             then Exn ConnectTimeoutError
                      ("Connection to " +:+ host self +:+ " timed out. (connect timeout="
                         +:+ str_timeout (conn_timeout self) +:+ ")")
             else Exn NewConnectionError
                      ("Failed to establish a new connection: " +:+ exn_msg e)),
        l2).
Proof.
  intros Hg Hpre S Hc U.
  assert (E : create_connection env g (Text.rstrip "." (host self), port self)
                                (conn_timeout self) (extra_kw self) l
              = (inl e, l2)).
  { rewrite (create_connection_resolved g _ _ _ _ l _ Hg).
    unfold dial. rewrite for_loop_app, Hpre. cbn [for_loop]. rewrite Hc.
    now rewrite (for_loop_only_unsafe _ _ post (Some e) l2 U). }
  assert (Se : is_socket_error e = true
               /\ exists evs c0 closing,
                   l2 = l1 ++ evs ++ Event c0 (Some e) :: closing
                   /\ (closing = [] \/ closing = [Event (close (fresh l1)) None])).
  { destruct (loop_body_safe c _ _ err1 l1 _ _ S Hc)
      as [(e' & -> & Hfl) | [(body & _ & _ & [Hfl | (e' & Hfl & _)])
                           | (body & e' & _ & -> & [= <-] & Se & body0 & c0 & ->)]];
      try discriminate.
    - destruct (is_socket_error e') eqn:Se; [| discriminate].
      injection Hfl as <-. split; [exact Se |].
      exists [], (socket_socket (af c) (socktype c) (proto c)), []. auto.
    - split; [exact Se |].
      exists (Event (socket_socket (af c) (socktype c) (proto c)) None :: body0), c0,
             [Event (close (fresh l1)) None].
      split; [| auto]. cbn [app]. rewrite <- app_assoc. reflexivity. }
  destruct Se as [Se Hlog].
  split; [exact E |]. split; [exact Se |]. split; [exact Hlog |].
  unfold _new_conn. rewrite E, Se. destruct (is_socket_timeout e); reflexivity.
Qed.

(** On a safe entry and with a list of options, a round performs the
    planned calls up to the first that raises. *)
Lemma loop_body_perform_all res tmo opts err l :
  is_safe res = true ->
  loop_body env tmo (Some opts) res err l
  = match perform_all env (planned (fresh l) res tmo opts) l with
    | (inr _, l') => (Return (fresh l), l')
    | (inl e, l') =>
        if is_socket_error e then
          (Next (Some e),
           match env l (socket_socket (af res) (socktype res) (proto res)) with
           | None => do_close (fresh l) l'
           | Some _ => l'
           end)
        else (Raise e, l')
    end.
Proof.
  unfold is_safe, loop_body, new_socket.
  destruct (ip_is_safe (sa_host (sa res))) as [e | [|]]; try discriminate. intros _.
  assert (P : perform_all env (planned (fresh l) res tmo opts) l
              = match env l (socket_socket (af res) (socktype res) (proto res)) with
                | Some e =>
                    (inl e, l ++ [Event (socket_socket (af res) (socktype res) (proto res))
                                        (Some e)])
                | None =>
                    perform_all env (tl (planned (fresh l) res tmo opts))
                      (l ++ [Event (socket_socket (af res) (socktype res) (proto res)) None])
                end).
  { unfold planned. cbn [perform_all tl]. unfold bind, perform.
    destruct (env l _); reflexivity. }
  rewrite P. clear P.
  destruct (env l (socket_socket (af res) (socktype res) (proto res))) as [e |].
  - reflexivity.
  - rewrite configure_and_connect_planned.
    destruct (perform_all env _ _) as [[e | u] l2]; reflexivity.
Qed.



(** C10, as the code has it. Without [socket_options], when every entry
    before [c] is passed over or fails to get a socket, [c] is safe and
    its socket is created, [create_connection] raises the [TypeError] of
    iterating over [None], which is no [socket.error]; the socket of [c]
    stays open and no later entry is tried. *)
Theorem C10_no_options_type_error g name p tmo l pre c post err1 l1 :
  resolved g name p = inr (pre ++ c :: post) ->
  for_loop env tmo None pre None l = (Next err1, l1) ->
  is_safe c = true ->
  env l1 (socket_socket (af c) (socktype c) (proto c)) = None ->
  create_connection env g (name, p) tmo None l
  = (inl (Exn TypeError "'NoneType' object is not iterable"),
     l1 ++ [Event (socket_socket (af c) (socktype c) (proto c)) None])
  /\ is_socket_error (Exn TypeError "'NoneType' object is not iterable") = false
  /\ open_sockets (l1 ++ [Event (socket_socket (af c) (socktype c) (proto c)) None])
     = open_sockets l ++ [fresh l1]
  /\ attempted (l1 ++ [Event (socket_socket (af c) (socktype c) (proto c)) None])
     = attempted l ++ map socket_args (List.filter is_safe pre) ++ [socket_args c].
Proof.
  intros Hg Hpre S Henv.
  pose proof (for_loop_next tmo None pre None l err1 l1 Hpre) as [Ho Ha].
  split; [| split; [reflexivity | split]].
  - rewrite (create_connection_resolved g name p tmo None l _ Hg).
    unfold dial. rewrite for_loop_app, Hpre. cbn [for_loop].
    unfold loop_body, new_socket. unfold is_safe in S.
    destruct (ip_is_safe (sa_host (sa c))) as [e | [|]]; try discriminate.
    rewrite Henv. reflexivity.
  - rewrite (open_sockets_created l1 _ _ _ []) by constructor. now rewrite Ho.
  - rewrite attempted_app, Ha, <- app_assoc. reflexivity.
Qed.

(** C7. On a text that is no address, [ip_is_safe] raises the
    [ValueError] of [ipaddress.ip_address] and returns neither verdict;
    the error is no [socket.error]: it leaves the loop of
    [create_connection] at that entry, whatever follows it, and passes
    through [_new_conn] as it is. *)
Theorem C7_malformed_address_raises (text : string) :
  ipaddress.ip_address text = None ->
  ip_is_safe text = inl (not_an_address text)
  /\ exn_kind (not_an_address text) = ValueError
  /\ is_socket_error (not_an_address text) = false
  /\ (forall res tmo so err l,
        sa_host (sa res) = text ->
        loop_body env tmo so res err l = (Raise (not_an_address text), l))
  /\ (forall g self l pre res post,
        resolved g (Text.rstrip "." (host self)) (port self) = inr (pre ++ res :: post) ->
        forallb is_unsafe pre = true ->
        sa_host (sa res) = text ->
        _new_conn str_timeout env g self l = (inl (not_an_address text), l)).
Proof.
  intros Hparse.
  assert (E : ip_is_safe text = inl (not_an_address text))
    by (unfold ip_is_safe; now rewrite Hparse).
  assert (B : forall res tmo so err l,
             sa_host (sa res) = text ->
             loop_body env tmo so res err l = (Raise (not_an_address text), l)).
  { intros res tmo so err l <-. unfold loop_body. now rewrite E. }
  split; [exact E |]. split; [reflexivity |]. split; [reflexivity |]. split; [exact B |].
  intros g self l pre res post Hg U Hres.
  unfold _new_conn.
  rewrite (create_connection_resolved g _ _ _ _ l _ Hg).
  unfold dial. rewrite for_loop_app.
  rewrite (for_loop_only_unsafe _ _ pre None l U). cbn [for_loop].
  rewrite (B res _ _ None l Hres). reflexivity.
Qed.

End DialerFacts.

(** *** The theorems at the fixtures of the test suite *)

(** C2 at the documentation address of [test_it.py]: alone, it gives
    what an empty answer gives. *)
Lemma C2_unsafe_entries_are_invisible_witness :
  forallb is_unsafe [documentation_v6] = true
  /\ create_connection reachable (answers [documentation_v6]) ("example.com", 80)
                       (Timeout (Some 5)) (Some default_socket_options) []
     = create_connection reachable (answers []) ("example.com", 80)
                         (Timeout (Some 5)) (Some default_socket_options) [].
Proof.
  assert (U : forallb is_unsafe [documentation_v6] = true) by (vm_compute; reflexivity).
  split; [exact U |].
  exact (proj2 (proj2 (proj2
           (C2_unsafe_entries_are_invisible seconds reachable str_seconds
              (answers []) ("example.com", 80) (Timeout (Some 5))
              (Some default_socket_options) [])))
           [documentation_v6] U).
Defined.

(** C3 on the answer of [test_unsafe_requests_fails]. *)
Lemma C3_nothing_to_dial_error_witness :
  create_connection reachable (fake_getaddrinfo [rfc1918_v4]) ("exampe.com", 80)
                    (Timeout (Some 5)) (Some default_socket_options) []
  = (inl (Exn socket_error "getaddrinfo returns an empty list"), []).
Proof.
  refine (proj1 (C3_nothing_to_dial_error seconds reachable str_seconds
                   (fake_getaddrinfo [rfc1918_v4]) "exampe.com" 80 (Timeout (Some 5))
                   (Some default_socket_options) [] [rfc1918_v4] _ _));
    vm_compute; reflexivity.
Defined.

(** Against C3 as stated: the error of a call that tried nothing has the
    class of the error of a call whose one attempt failed (the
    [fake_socket_raises] fixture), and its text is not "no usable address
    found". *)
Lemma C3_no_separate_kind :
  exists e_nothing e_failed log_failed,
    create_connection reachable (fake_getaddrinfo [rfc1918_v4]) ("exampe.com", 80)
                      (Timeout (Some 5)) (Some default_socket_options) []
    = (inl e_nothing, [])
    /\ create_connection fake_socket_raises (fake_getaddrinfo [example_com_v4])
                         ("example.com", 80) (Timeout (Some 5))
                         (Some default_socket_options) []
       = (inl e_failed, log_failed)
    /\ attempted log_failed = [socket_args example_com_v4]
    /\ ~ exn_kind e_nothing <> exn_kind e_failed
    /\ exn_msg e_nothing <> "no usable address found".
Proof.
  eexists _, _, _. split; [vm_compute; reflexivity |].
  split; [vm_compute; reflexivity |].
  split; [vm_compute; reflexivity |].
  split; [intros H; apply H; reflexivity | discriminate].
Qed.

(** C4 on an answer with an unsafe entry, a safe entry that is refused, a
    safe entry that connects and one more safe entry. *)
Lemma C4_first_reachable_wins_witness :
  exists l1 l2,
    for_loop refused_once (Timeout (Some 5)) (Some default_socket_options)
             [documentation_v6; example_com_v6] None []
    = (Next (Some (Exn socket_error "[Errno 111] Connection refused")), l1)
    /\ loop_body refused_once (Timeout (Some 5)) (Some default_socket_options)
                 example_com_v4 (Some (Exn socket_error "[Errno 111] Connection refused")) l1
       = (Return 1%nat, l2)
    /\ create_connection refused_once
         (fake_getaddrinfo [documentation_v6; example_com_v6; example_com_v4; example_com_v6])
         ("example.com", 80) (Timeout (Some 5)) (Some default_socket_options) []
       = (inr 1%nat, l2).
Proof.
  eexists _, _.
  assert (Hg : resolved (fake_getaddrinfo
                           [documentation_v6; example_com_v6; example_com_v4; example_com_v6])
                        "example.com" 80
               = inr ([documentation_v6; example_com_v6] ++ example_com_v4 :: [example_com_v6]))
    by (vm_compute; reflexivity).
  split; [vm_compute; reflexivity |].
  split; [vm_compute; reflexivity |].
  refine (proj1 (C4_first_reachable_wins seconds refused_once _ "example.com" 80
                   (Timeout (Some 5)) (Some default_socket_options) []
                   [documentation_v6; example_com_v6] example_com_v4 [example_com_v6]
                   _ _ _ _ Hg _ _));
    vm_compute; reflexivity.
Defined.

(** C5 on an answer with two safe entries and an unsafe entry after
    them. When the first is refused and the second times out, the
    timeout of the second surfaces; when the first times out and the
    second is refused, the refusal of the second surfaces. *)
Lemma C5_last_error_surfaces_witness :
  (exists l2,
     create_connection refused_then_timeout
       (fake_getaddrinfo [example_com_v6; example_com_v4; rfc1918_v4])
       ("example.com", 80) (Timeout (Some 5)) (Some default_socket_options) []
     = (inl (Exn socket_timeout "timed out"), l2)
     /\ _new_conn str_seconds refused_then_timeout
          (fake_getaddrinfo [example_com_v6; example_com_v4; rfc1918_v4])
          example_connection []
        = (inl (Exn ConnectTimeoutError
                    "Connection to example.com timed out. (connect timeout=5)"), l2))
  /\ (exists l2,
        create_connection timeout_then_refused
          (fake_getaddrinfo [example_com_v6; example_com_v4; rfc1918_v4])
          ("example.com", 80) (Timeout (Some 5)) (Some default_socket_options) []
        = (inl (Exn socket_error "[Errno 111] Connection refused"), l2)
        /\ _new_conn str_seconds timeout_then_refused
             (fake_getaddrinfo [example_com_v6; example_com_v4; rfc1918_v4])
             example_connection []
           = (inl (Exn NewConnectionError
                       "Failed to establish a new connection: [Errno 111] Connection refused"),
              l2)).
Proof.
  assert (Hg : resolved (fake_getaddrinfo [example_com_v6; example_com_v4; rfc1918_v4])
                        (Text.rstrip "." (host example_connection)) (port example_connection)
               = inr ([example_com_v6] ++ example_com_v4 :: [rfc1918_v4]))
    by (vm_compute; reflexivity).
  split; eexists.
  - pose proof (fun l1 l2 =>
                  C5_last_error_surfaces seconds refused_then_timeout str_seconds _
                    example_connection [] [example_com_v6] example_com_v4 [rfc1918_v4]
                    (Some (Exn socket_error "[Errno 111] Connection refused")) l1
                    (Exn socket_timeout "timed out") l2 Hg) as W.
    edestruct W as (E & _ & _ & N); [vm_compute; reflexivity .. |].
    split; [exact E | exact N].
  - pose proof (fun l1 l2 =>
                  C5_last_error_surfaces seconds timeout_then_refused str_seconds _
                    example_connection [] [example_com_v6] example_com_v4 [rfc1918_v4]
                    (Some (Exn socket_timeout "timed out")) l1
                    (Exn socket_error "[Errno 111] Connection refused") l2 Hg) as W.
    edestruct W as (E & _ & _ & N); [vm_compute; reflexivity .. |].
    split; [exact E | exact N].
Defined.

(** C7 on a text that is no address. *)
Lemma C7_malformed_address_raises_witness :
  ipaddress.ip_address "bogus" = None
  /\ ip_is_safe "bogus"
     = inl (Exn ValueError "'bogus' does not appear to be an IPv4 or IPv6 address").
Proof.
  assert (H : ipaddress.ip_address "bogus" = None) by (vm_compute; reflexivity).
  split; [exact H |].
  exact (proj1 (C7_malformed_address_raises seconds reachable str_seconds "bogus" H)).
Defined.


(** C10 on an unsafe entry followed by two safe ones, every call
    passing. *)
Lemma C10_no_options_type_error_witness :
  create_connection reachable (fake_getaddrinfo [rfc1918_v4; example_com_v4; example_com_v6])
                    ("example.com", 80) (@_GLOBAL_DEFAULT_TIMEOUT seconds) None []
  = (inl (Exn TypeError "'NoneType' object is not iterable"),
     [Event (socket_socket AF_INET SOCK_STREAM IPPROTO_TCP) None]).
Proof.
  edestruct (C10_no_options_type_error seconds reachable
               (fake_getaddrinfo [rfc1918_v4; example_com_v4; example_com_v6])
               "example.com" 80 _GLOBAL_DEFAULT_TIMEOUT []
               [rfc1918_v4] example_com_v4 [example_com_v6] None [])
    as (E & _); [vm_compute; reflexivity .. |].
  exact E.
Defined.

(** Against C10 as stated: with [socket_options] left out and a safe
    entry in the answer, the call does not raise [TypeError] when
    [socket.socket] itself raises (the [fake_socket_timeout] fixture): no
    socket exists, and the [socket.timeout] is what comes out. *)
Lemma C10_socket_creation_may_fail :
  is_safe example_com_v4 = true
  /\ create_connection fake_socket_timeout (fake_getaddrinfo [example_com_v4])
                       ("example.com", 80) (@_GLOBAL_DEFAULT_TIMEOUT seconds) None []
     = (inl (Exn socket_timeout "This always fails"),
        [Event (socket_socket AF_INET SOCK_STREAM IPPROTO_TCP)
               (Some (Exn socket_timeout "This always fails"))])
  /\ exn_kind (Exn socket_timeout "This always fails") <> TypeError.
Proof.
  split; [vm_compute; reflexivity |]. split; [vm_compute; reflexivity | discriminate].
Qed.

(** C6, where the code departs from it. With [socket_options] left out,
    one safe entry and every call passing, [create_connection] creates
    socket 0, raises [TypeError] and never closes the socket; the same
    happens through [_new_conn] on a connection whose [socket_options] is
    the empty list. *)
Theorem C6_socket_left_open_without_options :
  create_connection reachable (fake_getaddrinfo [example_com_v4]) ("example.com", 80)
                    (@_GLOBAL_DEFAULT_TIMEOUT seconds) None []
  = (inl (Exn TypeError "'NoneType' object is not iterable"),
     [Event (socket_socket AF_INET SOCK_STREAM IPPROTO_TCP) None])
  /\ open_sockets [@Event seconds (socket_socket AF_INET SOCK_STREAM IPPROTO_TCP) None]
     = [0%nat]
  /\ _new_conn str_seconds reachable (fake_getaddrinfo [example_com_v4])
       {| host := "example.com"; port := 80; conn_timeout := Timeout (Some 5);
          conn_socket_options := Some [] |} []
     = (inl (Exn TypeError "'NoneType' object is not iterable"),
        [Event (socket_socket AF_INET SOCK_STREAM IPPROTO_TCP) None]).
Proof. repeat split; vm_compute; reflexivity. Qed.

(** *** The wiring of [apply] *)

Section Wiring.

Import wiring.

Implicit Types (d : list (string * adapter)) (k : string) (a : adapter) (s : Session).

Lemma find_od_set_same k a d : List.find (has_key k) (od_set k a d) = Some (k, a).
Proof.
  induction d as [| [k0 v] d IH]; cbn [od_set List.find].
  - unfold has_key. cbn [fst]. now rewrite String.eqb_refl.
  - destruct (String.eqb_spec k0 k) as [-> | Hne]; cbn [List.find]; unfold has_key at 1;
      cbn [fst].
    + now rewrite String.eqb_refl.
    + destruct (String.eqb_spec k0 k); [contradiction | exact IH].
Qed.

Lemma find_od_set_other k k' a d :
  k' <> k -> List.find (has_key k') (od_set k a d) = List.find (has_key k') d.
Proof.
  intros Hne. induction d as [| [k0 v] d IH]; cbn [od_set List.find].
  - unfold has_key. cbn [fst]. destruct (String.eqb_spec k k'); [congruence | reflexivity].
  - destruct (String.eqb_spec k0 k) as [-> | Hk]; cbn [List.find]; unfold has_key at 1 3;
      cbn [fst].
    + destruct (String.eqb_spec k k'); [congruence | reflexivity].
    + destruct (String.eqb k0 k'); [reflexivity | exact IH].
Qed.

Lemma find_filter_keep k (q : string * adapter -> bool) d :
  (forall kv, has_key k kv = true -> q kv = true) ->
  List.find (has_key k) (List.filter q d) = List.find (has_key k) d.
Proof.
  intros Hq. induction d as [| kv d IH]; [reflexivity |]. cbn [List.filter List.find].
  destruct (has_key k kv) eqn:Hk.
  - rewrite (Hq kv Hk). cbn [List.find]. now rewrite Hk.
  - destruct (q kv); cbn [List.find]; rewrite ?Hk; exact IH.
Qed.

Lemma find_filter_drop k (q : string * adapter -> bool) d :
  (forall kv, has_key k kv = true -> q kv = false) ->
  List.find (has_key k) (List.filter q d) = None.
Proof.
  intros Hq. induction d as [| kv d IH]; [reflexivity |]. cbn [List.filter].
  destruct (q kv) eqn:Hqk; [| exact IH]. cbn [List.find].
  destruct (has_key k kv) eqn:Hk; [| exact IH].
  rewrite (Hq kv Hk) in Hqk. discriminate.
Qed.

Lemma find_key_app k d1 d2 :
  List.find (has_key k) (d1 ++ d2)
  = match List.find (has_key k) d1 with
    | Some kv => Some kv
    | None => List.find (has_key k) d2
    end.
Proof.
  induction d1 as [| kv d1 IH]; [reflexivity |].
  cbn [app List.find]. destruct (has_key k kv); [reflexivity | exact IH].
Qed.

(** Moving the entries whose key satisfies a test behind the others does
    not change the first entry of any given key. *)
Lemma find_reordered k (test : string -> bool) d :
  List.find (has_key k)
            (List.filter (fun kv => negb (test (fst kv))) d
             ++ List.filter (fun kv => test (fst kv)) d)
  = List.find (has_key k) d.
Proof.
  rewrite find_key_app.
  assert (Hkey : forall kv, has_key k kv = true -> fst kv = k).
  { intros kv H. unfold has_key in H. now apply String.eqb_eq. }
  destruct (test k) eqn:Ht.
  - rewrite find_filter_drop, find_filter_keep; [reflexivity | |];
      intros kv H; rewrite (Hkey kv H), Ht; reflexivity.
  - rewrite find_filter_keep.
    + destruct (List.find (has_key k) d) eqn:F; [reflexivity |].
      apply find_filter_drop. intros kv H. now rewrite (Hkey kv H).
    + intros kv H. rewrite (Hkey kv H), Ht. reflexivity.
Qed.

Lemma adapters_get_mount_same k a s : adapters_get k (mount k a s) = Some a.
Proof.
  unfold adapters_get, mount. cbn [adapters].
  rewrite (find_reordered k (fun key => (String.length key <? String.length k)%nat)).
  now rewrite find_od_set_same.
Qed.

Lemma adapters_get_mount_other k k' a s :
  k' <> k -> adapters_get k' (mount k a s) = adapters_get k' s.
Proof.
  intros Hne. unfold adapters_get, mount. cbn [adapters].
  rewrite (find_reordered k' (fun key => (String.length key <? String.length k)%nat)).
  now rewrite find_od_set_other.
Qed.


End Wiring.

(** *** Further properties of the dialer *)

Section DialerMore.

Variable timeout_value : Type.
Variable env : log timeout_value -> call timeout_value -> option exn.
Variable str_timeout : timeout timeout_value -> string.

Implicit Types (g : resolver) (name : string) (self : HTTPConnection timeout_value)
         (cands pre post : list addrinfo).
Implicit Types (l : log timeout_value) (res : addrinfo) (err : option exn)
         (tmo : timeout timeout_value) (opts : list sockopt) (cs : list (call timeout_value))
         (body evs : list (event timeout_value)) (so : option (list sockopt)).

Lemma fresh_app l evs : fresh (l ++ evs) = (fresh l + fresh evs)%nat.
Proof. unfold fresh. now rewrite List.filter_app, length_app. Qed.

(** The calls of one round are made for its entry, and only when the
    entry is safe. *)
Lemma loop_body_events res tmo so err l fl l' :
  loop_body env tmo so res err l = (fl, l') ->
  exists evs,
    l' = l ++ evs
    /\ Forall (fun ev => is_safe res = true
                         /\ made_for tmo so res (fresh l) (ev_call ev)) evs.
Proof.
  intros H. destruct (is_safe res) eqn:S.
  2: { apply loop_body_not_safe in H; [| exact S]. destruct H as [-> _].
       exists []. split; [now rewrite app_nil_r | constructor]. }
  assert (Hplanned : forall opts c,
             so = Some opts -> In c (planned (fresh l) res tmo opts) ->
             made_for tmo so res (fresh l) c).
  { intros opts c -> Hc. unfold planned in Hc. cbn [In] in Hc.
    destruct Hc as [<- | Hc]; [reflexivity |].
    rewrite !in_app_iff in Hc. destruct Hc as [Hc | [Hc | Hc]].
    - apply in_map_iff in Hc. destruct Hc as (opt & <- & Hopt). cbn. eauto.
    - destruct tmo as [| t]; [destruct Hc |].
      destruct Hc as [<- | []]. cbn. auto.
    - destruct Hc as [<- | []]. cbn. auto. }
  destruct so as [opts |].
  - rewrite loop_body_perform_all in H by exact S.
    destruct (perform_all env (planned (fresh l) res tmo opts) l) as [r l2] eqn:Hp.
    apply perform_all_log in Hp. destruct Hp as (evs & -> & [k Hk] & _).
    assert (Hevs : Forall (fun ev => true = true
                                     /\ made_for tmo (Some opts) res (fresh l) (ev_call ev))
                          evs).
    { apply List.Forall_forall. intros ev Hev. split; [reflexivity |].
      apply (Hplanned opts); [reflexivity |]. rewrite Hk.
      apply in_or_app. left. now apply List.in_map. }
    destruct r as [e | u].
    + destruct (is_socket_error e).
      * destruct (env l _); injection H as <- <-.
        -- exists evs. auto.
        -- exists (evs ++ [Event (close (fresh l)) None]). unfold do_close.
           split; [now rewrite app_assoc |].
           apply Forall_app. split; [exact Hevs |]. repeat constructor.
      * injection H as <- <-. exists evs. auto.
    + injection H as <- <-. exists evs. auto.
  - unfold loop_body, new_socket in H. unfold is_safe in S.
    destruct (ip_is_safe (sa_host (sa res))) as [e | [|]]; try discriminate.
    destruct (env l (socket_socket (af res) (socktype res) (proto res))) as [e |].
    + exists [Event (socket_socket (af res) (socktype res) (proto res)) (Some e)].
      split; [destruct (is_socket_error e); now injection H as <- <- |].
      repeat constructor.
    + cbn in H. injection H as <- <-.
      exists [Event (socket_socket (af res) (socktype res) (proto res)) None].
      split; [reflexivity | repeat constructor].
Qed.

(** The calls of the whole loop are made for safe entries of the list, on
    sockets created since the loop began. *)
Lemma for_loop_events tmo so cands err l fl l' :
  for_loop env tmo so cands err l = (fl, l') ->
  exists evs,
    l' = l ++ evs
    /\ Forall (fun ev => exists res sock,
                   In res cands /\ is_safe res = true /\ (fresh l <= sock)%nat
                   /\ made_for tmo so res sock (ev_call ev)) evs.
Proof.
  revert err l. induction cands as [| res rest IH]; intros err l H.
  - injection H as <- <-. exists []. split; [now rewrite app_nil_r | constructor].
  - cbn [for_loop] in H.
    destruct (loop_body env tmo so res err l) as [fl1 l1] eqn:Hb.
    apply loop_body_events in Hb. destruct Hb as (evs1 & -> & H1).
    assert (H1' : Forall (fun ev => exists res0 sock,
                              In res0 (res :: rest) /\ is_safe res0 = true
                              /\ (fresh l <= sock)%nat
                              /\ made_for tmo so res0 sock (ev_call ev)) evs1).
    { eapply Forall_impl; [exact H1 |]. cbn beta. intros ev [S M].
      exists res, (fresh l). split; [now left |]. auto. }
    destruct fl1 as [err1 | sock | e].
    + apply IH in H. destruct H as (evs2 & -> & H2).
      exists (evs1 ++ evs2). split; [now rewrite app_assoc |].
      apply Forall_app. split; [exact H1' |].
      eapply Forall_impl; [exact H2 |]. cbn beta.
      intros ev (res0 & sock & Hin & S & Hs & M).
      exists res0, sock. split; [now right |]. split; [exact S |]. split; [| exact M].
      rewrite fresh_app in Hs. lia.
    + injection H as <- <-. eauto.
    + injection H as <- <-. eauto.
Qed.

Lemma create_connection_events g name p tmo so l :
  exists evs,
    snd (create_connection env g (name, p) tmo so l) = l ++ evs
    /\ Forall (fun ev => exists cands res sock,
                   resolved g name p = inr cands
                   /\ In res cands /\ is_safe res = true /\ (fresh l <= sock)%nat
                   /\ made_for tmo so res sock (ev_call ev)) evs.
Proof.
  unfold create_connection. fold (resolved g name p).
  destruct (resolved g name p) as [e | cands] eqn:Hg.
  - exists []. split; [cbn; now rewrite app_nil_r | constructor].
  - unfold dial.
    destruct (for_loop env tmo so cands None l) as [fl l'] eqn:Hf.
    apply for_loop_events in Hf. destruct Hf as (evs & -> & He).
    exists evs. split; [destruct fl as [[e |] | sock | e]; reflexivity |].
    eapply Forall_impl; [exact He |]. cbn beta.
    intros ev (res & sock & Hin & S & Hs & M). exists cands, res, sock. auto.
Qed.

(** X1. [create_connection] connects only to addresses the classifier
    judged safe: every [connect] it makes goes to the address of a safe
    entry of the resolver's answer, and every socket it asks for has the
    family, type and protocol of such an entry. *)
Theorem X1_connects_only_to_safe_entries g name p tmo so l :
  exists evs,
    snd (create_connection env g (name, p) tmo so l) = l ++ evs
    /\ (forall sock x r,
          In (Event (connect sock x) r) evs ->
          ip_is_safe (sa_host x) = inr true
          /\ exists cands res, resolved g name p = inr cands /\ In res cands /\ x = sa res)
    /\ (forall a s q r,
          In (Event (socket_socket a s q) r) evs ->
          exists cands res, resolved g name p = inr cands /\ In res cands
                            /\ is_safe res = true /\ (a, s, q) = socket_args res).
Proof.
  destruct (create_connection_events g name p tmo so l) as (evs & E & F).
  exists evs. split; [exact E |]. rewrite List.Forall_forall in F. split.
  - intros sock x r Hin.
    destruct (F _ Hin) as (cands & res & sock' & Hg & Hres & S & _ & M).
    cbn in M. destruct M as [_ ->]. split; [| eauto].
    unfold is_safe in S. destruct (ip_is_safe (sa_host (sa res))) as [e | [|]];
      try discriminate. reflexivity.
  - intros a s q r Hin.
    destruct (F _ Hin) as (cands & res & sock' & Hg & Hres & S & _ & M).
    cbn in M. eauto 6.
Qed.

(** X2. [create_connection] sets nothing the caller did not ask for:
    every [setsockopt] it makes carries an entry of [socket_options],
    every [settimeout] carries the caller's timeout, and under the
    sentinel [_GLOBAL_DEFAULT_TIMEOUT] no [settimeout] is made at all. *)
Theorem X2_options_and_timeout_as_given g name p tmo so l :
  exists evs,
    snd (create_connection env g (name, p) tmo so l) = l ++ evs
    /\ (forall sock opt r,
          In (Event (setsockopt sock opt) r) evs ->
          exists opts, so = Some opts /\ In opt opts)
    /\ (forall sock t r,
          In (Event (settimeout sock t) r) evs -> tmo = Timeout t).
Proof.
  destruct (create_connection_events g name p tmo so l) as (evs & E & F).
  exists evs. split; [exact E |]. rewrite List.Forall_forall in F. split.
  - intros sock opt r Hin.
    destruct (F _ Hin) as (cands & res & sock' & _ & _ & _ & _ & M).
    cbn in M. tauto.
  - intros sock t r Hin.
    destruct (F _ Hin) as (cands & res & sock' & _ & _ & _ & _ & M).
    cbn in M. tauto.
Qed.

Lemma fresh_plain body :
  Forall (fun ev => is_plain (ev_call ev) = true) body -> fresh body = 0%nat.
Proof.
  induction 1 as [| [c r] body Hev _ IH]; [reflexivity |].
  unfold fresh in *. cbn [List.filter]. cbn in Hev.
  destruct c; try discriminate; destruct r; exact IH.
Qed.

Lemma fresh_created a s p body :
  fresh (Event (socket_socket a s p) None :: body) = S (fresh body).
Proof. reflexivity. Qed.

(** The calls of one round on a socket are on the socket the round
    created. *)
Lemma loop_body_sockets res tmo so err l fl l' :
  loop_body env tmo so res err l = (fl, l') ->
  exists evs,
    l' = l ++ evs
    /\ (fresh l <= fresh l')%nat
    /\ forall ev sock,
         In ev evs -> socket_of (ev_call ev) = Some sock ->
         sock = fresh l /\ fresh l' = S (fresh l).
Proof.
  intros H. destruct (is_safe res) eqn:S.
  2: { apply loop_body_not_safe in H; [| exact S]. destruct H as [-> _].
       exists []. split; [now rewrite app_nil_r |]. split; [lia |]. intros ev sock []. }
  pose proof (loop_body_events res tmo so err l fl l' H) as (evs & E & F).
  exists evs. split; [exact E |].
  rewrite List.Forall_forall in F.
  assert (Hown : forall ev sock,
             In ev evs -> socket_of (ev_call ev) = Some sock -> sock = fresh l).
  { intros ev sock Hin Hs. destruct (F ev Hin) as [_ M].
    destruct (ev_call ev); cbn in M, Hs; try discriminate;
      injection Hs as <-; destruct M; congruence. }
  apply loop_body_safe in H; [| exact S]. cbv zeta in H.
  destruct H as [(e & El & _) | [(body & Hb & El & _) | (body & e & Hb & El & _)]];
    rewrite El in E |- *; apply app_inv_head in E; subst evs.
  - rewrite fresh_app. split; [lia |]. intros ev sock [<- | []] Hs. discriminate Hs.
  - rewrite fresh_app, fresh_created, (fresh_plain body Hb).
    split; [lia |]. intros ev sock Hin Hs. split; [eauto | lia].
  - rewrite fresh_app, fresh_created, fresh_app, (fresh_plain body Hb).
    change (fresh [Event (close (fresh l)) None]) with 0%nat.
    split; [lia |]. intros ev sock Hin Hs. split; [eauto | lia].
Qed.

Lemma for_loop_sockets tmo so cands err l fl l' :
  for_loop env tmo so cands err l = (fl, l') ->
  exists evs,
    l' = l ++ evs
    /\ (fresh l <= fresh l')%nat
    /\ forall ev sock,
         In ev evs -> socket_of (ev_call ev) = Some sock ->
         (fresh l <= sock < fresh l')%nat.
Proof.
  revert err l. induction cands as [| res rest IH]; intros err l H.
  - injection H as <- <-. exists []. split; [now rewrite app_nil_r |].
    split; [lia |]. intros ev sock [].
  - cbn [for_loop] in H.
    destruct (loop_body env tmo so res err l) as [fl1 l1] eqn:Hb.
    apply loop_body_sockets in Hb. destruct Hb as (evs1 & -> & Hle & H1).
    assert (Hstop : exists evs,
               l ++ evs1 = l ++ evs
               /\ (fresh l <= fresh (l ++ evs1))%nat
               /\ forall ev sock,
                    In ev evs -> socket_of (ev_call ev) = Some sock ->
                    (fresh l <= sock < fresh (l ++ evs1))%nat).
    { exists evs1. split; [reflexivity |]. split; [exact Hle |].
      intros ev sock Hin Hs. destruct (H1 ev sock Hin Hs). lia. }
    destruct fl1 as [err1 | s | e]; [| injection H as <- <-; exact Hstop ..].
    apply IH in H. destruct H as (evs2 & -> & Hle2 & H2).
    exists (evs1 ++ evs2). split; [now rewrite app_assoc |]. split; [lia |].
    intros ev sock Hin Hs. apply in_app_or in Hin. destruct Hin as [Hin | Hin].
    + destruct (H1 ev sock Hin Hs). lia.
    + specialize (H2 ev sock Hin Hs). lia.
Qed.

(** X3. [create_connection] touches no socket but its own: every
    [setsockopt], [settimeout], [connect] and [close] it makes is on a
    socket created during the call. *)
Theorem X3_only_own_sockets g name p tmo so l :
  exists evs,
    snd (create_connection env g (name, p) tmo so l) = l ++ evs
    /\ forall ev sock,
         In ev evs -> socket_of (ev_call ev) = Some sock ->
         (fresh l <= sock < fresh (l ++ evs))%nat.
Proof.
  unfold create_connection.
  destruct (g _ _ _ _ _ _) as [e | cands].
  - exists []. split; [cbn; now rewrite app_nil_r |]. intros ev sock [].
  - unfold dial.
    destruct (for_loop env tmo so cands None l) as [fl l'] eqn:Hf.
    apply for_loop_sockets in Hf. destruct Hf as (evs & -> & _ & He).
    exists evs. split; [destruct fl as [[e |] | sock | e]; reflexivity | exact He].
Qed.

(** The sockets asked for in one round: one for a safe entry, none
    otherwise, however the round ends. *)
Lemma loop_body_attempted res tmo so err l fl l' :
  loop_body env tmo so res err l = (fl, l') ->
  attempted l' = attempted l ++ (if is_safe res then [socket_args res] else []).
Proof.
  intros H. destruct (is_safe res) eqn:S.
  - apply loop_body_safe in H; [| exact S]. cbv zeta in H.
    destruct H as [(e & -> & _) | [(body & Hb & -> & _) | (body & e & Hb & -> & _)]];
      rewrite attempted_app; cbn [attempted ev_call]; try reflexivity.
    + now rewrite (attempted_plain _ body Hb).
    + rewrite attempted_app, (attempted_plain _ body Hb). reflexivity.
  - apply loop_body_not_safe in H; [| exact S]. destruct H as [-> _].
    now rewrite app_nil_r.
Qed.

(** X4. Whatever the outcome of the call, the sockets
    [create_connection] asks for are those of the first safe entries of
    the resolver's answer, in the order of the answer and one for each:
    no entry is tried twice and none out of turn. *)
Theorem X4_attempts_follow_the_resolver g name p tmo so l cands :
  resolved g name p = inr cands ->
  exists k,
    attempted (snd (create_connection env g (name, p) tmo so l))
    = attempted l ++ map socket_args (firstn k (List.filter is_safe cands)).
Proof.
  intros Hg. erewrite create_connection_resolved by exact Hg.
  unfold dial.
  assert (G : forall cands err l fl l',
             for_loop env tmo so cands err l = (fl, l') ->
             exists k, attempted l'
                       = attempted l ++ map socket_args (firstn k (List.filter is_safe cands))).
  { clear. induction cands as [| res rest IH]; intros err l fl l' H.
    - injection H as <- <-. exists 0%nat. now rewrite app_nil_r.
    - cbn [for_loop] in H.
      destruct (loop_body env tmo so res err l) as [fl1 l1] eqn:Hb.
      apply loop_body_attempted in Hb. cbn [List.filter].
      destruct fl1 as [err1 | s | e].
      + apply IH in H. destruct H as [k ->]. rewrite Hb.
        destruct (is_safe res).
        * exists (S k). cbn [firstn map]. now rewrite <- app_assoc.
        * exists k. now rewrite app_nil_r.
      + injection H as <- <-. rewrite Hb. destruct (is_safe res).
        * exists 1%nat. reflexivity.
        * exists 0%nat. reflexivity.
      + injection H as <- <-. rewrite Hb. destruct (is_safe res).
        * exists 1%nat. reflexivity.
        * exists 0%nat. reflexivity. }
  destruct (for_loop env tmo so cands None l) as [fl l'] eqn:Hf.
  apply G in Hf. destruct Hf as [k Hk]. exists k.
  destruct fl as [[e |] | sock | e]; exact Hk.
Qed.

Lemma loop_body_raise res tmo so err l e l' :
  loop_body env tmo so res err l = (Raise e, l') -> is_socket_error e = false.
Proof.
  unfold loop_body, new_socket.
  destruct (ip_is_safe (sa_host (sa res))) as [e0 | [|]] eqn:Hs.
  - unfold ip_is_safe in Hs. destruct (ipaddress.ip_address _); [discriminate |].
    injection Hs as <-. intros [= <- _]. reflexivity.
  - destruct (env l _) as [e0 |].
    + destruct (is_socket_error e0) eqn:Se; intros [= <- _]; exact Se.
    + destruct (configure_and_connect env _ _ _ _ _) as [[e0 | u] l2].
      * destruct (is_socket_error e0) eqn:Se; intros [= <- _]; exact Se.
      * intros E. discriminate E.
  - intros E. discriminate E.
Qed.

Lemma for_loop_raise tmo so cands err l e l' :
  for_loop env tmo so cands err l = (Raise e, l') -> is_socket_error e = false.
Proof.
  revert err l. induction cands as [| res rest IH]; intros err l H; [discriminate |].
  cbn [for_loop] in H.
  destruct (loop_body env tmo so res err l) as [[err1 | s | e1] l1] eqn:Hb.
  - eapply IH, H.
  - discriminate.
  - injection H as <- <-. eapply loop_body_raise, Hb.
Qed.

(** X5. A call of [create_connection] that returns leaves exactly the
    returned socket open, and a call that raises a [socket.error] (the
    errors [_new_conn] handles) leaves none open: every other socket it
    created has been closed. *)
Theorem X5_no_socket_left_open_on_handled_exits g name p tmo so l :
  match create_connection env g (name, p) tmo so l with
  | (inr sock, l') => open_sockets l' = open_sockets l ++ [sock]
  | (inl e, l') => is_socket_error e = true -> open_sockets l' = open_sockets l
  end.
Proof.
  unfold create_connection.
  destruct (g _ _ _ _ _ _) as [e | cands]; [cbn; reflexivity |].
  unfold dial.
  destruct (for_loop env tmo so cands None l) as [[[e |] | sock | e] l'] eqn:Hf.
  - intros _. apply for_loop_next in Hf. tauto.
  - intros _. apply for_loop_next in Hf. tauto.
  - apply for_loop_return in Hf; [exact Hf | exact str_timeout].
  - intros Se. apply for_loop_raise in Hf. congruence.
Qed.


(** X7. A failed resolution leaves [create_connection] as it is raised,
    before any socket call; [_new_conn] turns it, like any other
    [socket.error], into a [NewConnectionError] that carries its text. *)
Theorem X7_resolution_failure_propagates g self l e :
  resolved g (Text.rstrip "." (host self)) (port self) = inl e ->
  create_connection env g (Text.rstrip "." (host self), port self)
                    (conn_timeout self) (extra_kw self) l
  = (inl e, l)
  /\ _new_conn str_timeout env g self l
     = (inl (if is_socket_timeout e then Exn ConnectTimeoutError (timed_out_msg str_timeout self)
             else if is_socket_error e then Exn NewConnectionError (failed_msg e)
             else e), l).
Proof.
  intros Hg.
  assert (E : create_connection env g (Text.rstrip "." (host self), port self)
                                (conn_timeout self) (extra_kw self) l
              = (inl e, l)).
  { unfold create_connection. unfold resolved in Hg. now rewrite Hg. }
  split; [exact E |]. unfold _new_conn. rewrite E.
  destruct (is_socket_timeout e); [reflexivity |].
  destruct (is_socket_error e); reflexivity.
Qed.

(** When every call of a list passes, all of them are made. *)
Lemma perform_all_passes cs l l' :
  perform_all env cs l = (inr tt, l') -> l' = l ++ map (fun c => Event c None) cs.
Proof.
  intros H. apply perform_all_log in H. destruct H as (evs & -> & _ & Hc & Hok).
  f_equal. now apply events_all_passed.
Qed.

(** X8. When the entries before [c] are all unsafe, [c] is safe and the
    network lets the planned calls of [c] pass, [create_connection]
    returns the socket of [c] after exactly those calls: unsafe entries
    ahead of a reachable safe one do not keep the call from
    succeeding. *)
Theorem X8_unsafe_then_safe_succeeds g name p tmo opts l pre c post l' :
  resolved g name p = inr (pre ++ c :: post) ->
  forallb is_unsafe pre = true ->
  is_safe c = true ->
  perform_all env (planned (fresh l) c tmo opts) l = (inr tt, l') ->
  create_connection env g (name, p) tmo (Some opts) l = (inr (fresh l), l')
  /\ l' = l ++ map (fun c => Event c None) (planned (fresh l) c tmo opts).
Proof.
  intros Hg U S Hp. split; [| now apply perform_all_passes].
  erewrite create_connection_resolved by exact Hg.
  unfold dial. rewrite for_loop_app.
  rewrite for_loop_only_unsafe by exact U. cbn [for_loop].
  rewrite loop_body_perform_all by exact S. rewrite Hp. reflexivity.
Qed.

End DialerMore.

(** *** The fixtures of [conftest.py] *)

Section Fixtures.

(** ['%s' % timeout], whatever it prints. *)
Variable str_timeout : timeout seconds -> string.

Implicit Types (g : resolver) (name : string) (self : HTTPConnection seconds)
         (cands : list addrinfo) (l : log seconds) (res : addrinfo) (err : option exn)
         (tmo : timeout seconds) (opts : list sockopt) (so : option (list sockopt)).

(** Under [fake_socket_raises] a list of calls fails exactly when it
    holds a connect. *)
Lemma fake_socket_raises_calls (cs : list (call seconds)) l :
  fst (perform_all fake_socket_raises cs l)
  = if existsb (fun c => match c with connect _ _ => true | _ => false end) cs
    then inl (Exn socket_error "Always fails")
    else inr tt.
Proof.
  revert l. induction cs as [| c cs IH]; intros l; [reflexivity |].
  cbn [perform_all existsb]. unfold bind, perform.
  destruct c; cbn [fake_socket_raises orb]; try apply IH. reflexivity.
Qed.

Lemma fake_socket_raises_round res tmo opts err l :
  is_safe res = true ->
  exists l',
    loop_body fake_socket_raises tmo (Some opts) res err l
    = (Next (Some (Exn socket_error "Always fails")), l').
Proof.
  intros S. rewrite loop_body_perform_all by exact S.
  pose proof (fake_socket_raises_calls (planned (fresh l) res tmo opts) l) as F.
  destruct (perform_all fake_socket_raises (planned (fresh l) res tmo opts) l)
    as [r l2].
  cbn [fst] in F. subst r.
  replace (existsb _ (planned (fresh l) res tmo opts)) with true.
  - cbn. eauto.
  - unfold planned. cbn [existsb]. rewrite !existsb_app. cbn.
    now rewrite !orb_true_r.
Qed.

Lemma fake_socket_raises_loop tmo opts cands err l :
  forallb is_address cands = true ->
  exists l',
    for_loop fake_socket_raises tmo (Some opts) cands err l
    = (Next (if existsb is_safe cands then Some (Exn socket_error "Always fails")
             else err), l').
Proof.
  revert err l. induction cands as [| res rest IH]; intros err l V; [cbn; eauto |].
  cbn [forallb] in V. apply andb_prop in V. destruct V as [Vr V].
  cbn [for_loop existsb]. destruct (is_safe res) eqn:S.
  - destruct (fake_socket_raises_round res tmo opts err l S) as [l1 ->].
    destruct (IH (Some (Exn socket_error "Always fails")) l1 V) as [l' ->].
    exists l'. cbn [orb]. destruct (existsb is_safe rest); reflexivity.
  - unfold is_address in Vr. rewrite S in Vr. cbn [orb] in Vr.
    rewrite loop_body_unsafe by exact Vr. cbn [orb]. apply IH, V.
Qed.

(** X9. With the socket of the [fake_socket_raises] fixture, whose
    connect always fails, and a list of options, a call on any answer of
    addresses with at least one safe entry tries every safe entry in
    turn, raises the fixture's [socket.error("Always fails")] and leaves
    no socket open; [_new_conn] surfaces it as a [NewConnectionError]. *)
Theorem X9_fake_socket_raises_always_fails g self l cands opts :
  extra_kw self = Some opts ->
  resolved g (Text.rstrip "." (host self)) (port self) = inr cands ->
  forallb is_address cands = true ->
  existsb is_safe cands = true ->
  exists l',
    create_connection fake_socket_raises g (Text.rstrip "." (host self), port self)
                      (conn_timeout self) (Some opts) l
    = (inl (Exn socket_error "Always fails"), l')
    /\ _new_conn str_timeout fake_socket_raises g self l
       = (inl (Exn NewConnectionError "Failed to establish a new connection: Always fails"),
          l')
    /\ open_sockets l' = open_sockets l
    /\ attempted l' = attempted l ++ map socket_args (List.filter is_safe cands).
Proof.
  intros Ho Hg V Hs.
  destruct (fake_socket_raises_loop (conn_timeout self) opts cands None l V) as [l' Hf].
  rewrite Hs in Hf.
  assert (E : create_connection fake_socket_raises g
                (Text.rstrip "." (host self), port self) (conn_timeout self) (Some opts) l
              = (inl (Exn socket_error "Always fails"), l')).
  { erewrite create_connection_resolved by exact Hg. unfold dial. now rewrite Hf. }
  exists l'. split; [exact E |]. split.
  - unfold _new_conn. rewrite Ho, E. reflexivity.
  - apply for_loop_next in Hf. exact Hf.
Qed.

Lemma fake_socket_timeout_loop tmo so cands err l :
  forallb is_address cands = true ->
  exists l',
    for_loop fake_socket_timeout tmo so cands err l
    = (Next (if existsb is_safe cands then Some (Exn socket_timeout "This always fails")
             else err), l')
    /\ fresh l' = fresh l.
Proof.
  revert err l. induction cands as [| res rest IH]; intros err l V; [cbn; eauto |].
  cbn [forallb] in V. apply andb_prop in V. destruct V as [Vr V].
  cbn [for_loop existsb]. destruct (is_safe res) eqn:S.
  - assert (R : loop_body fake_socket_timeout tmo so res err l
                = (Next (Some (Exn socket_timeout "This always fails")),
                   l ++ [Event (socket_socket (af res) (socktype res) (proto res))
                               (Some (Exn socket_timeout "This always fails"))])).
    { unfold loop_body, new_socket. unfold is_safe in S.
      destruct (ip_is_safe (sa_host (sa res))) as [e | [|]]; try discriminate.
      reflexivity. }
    rewrite R.
    edestruct (IH (Some (Exn socket_timeout "This always fails"))) as (l' & -> & Hfr);
      [exact V |].
    exists l'. cbn [orb]. split; [destruct (existsb is_safe rest); reflexivity |].
    rewrite Hfr. unfold fresh. rewrite List.filter_app, length_app. cbn. lia.
  - unfold is_address in Vr. rewrite S in Vr. cbn [orb] in Vr.
    rewrite loop_body_unsafe by exact Vr. cbn [orb]. apply IH, V.
Qed.

(** X10. With the socket of the [fake_socket_timeout] fixture, whose
    creation times out, a call on any answer of addresses with at least
    one safe entry creates no socket at all and raises the fixture's
    [socket.timeout], with or without [socket_options]; [_new_conn]
    surfaces it as a [ConnectTimeoutError] whose text names [self.host]
    and the timeout of the connection as ['%s'] prints it. *)
Theorem X10_fake_socket_timeout_times_out g self l cands :
  resolved g (Text.rstrip "." (host self)) (port self) = inr cands ->
  forallb is_address cands = true ->
  existsb is_safe cands = true ->
  exists l',
    create_connection fake_socket_timeout g (Text.rstrip "." (host self), port self)
                      (conn_timeout self) (extra_kw self) l
    = (inl (Exn socket_timeout "This always fails"), l')
    /\ _new_conn str_timeout fake_socket_timeout g self l
       = (inl (Exn ConnectTimeoutError
                   ("Connection to " +:+ host self +:+ " timed out. (connect timeout="
                      +:+ str_timeout (conn_timeout self) +:+ ")")), l')
    /\ fresh l' = fresh l.
Proof.
  intros Hg V Hs.
  destruct (fake_socket_timeout_loop (conn_timeout self) (extra_kw self) cands None l V)
    as (l' & Hf & Hfr).
  rewrite Hs in Hf.
  assert (E : create_connection fake_socket_timeout g
                (Text.rstrip "." (host self), port self) (conn_timeout self)
                (extra_kw self) l
              = (inl (Exn socket_timeout "This always fails"), l')).
  { erewrite create_connection_resolved by exact Hg. unfold dial. now rewrite Hf. }
  exists l'. split; [exact E |]. split; [| exact Hfr].
  unfold _new_conn. rewrite E. reflexivity.
Qed.

End Fixtures.

(** *** The host handed to the resolver *)

Section Hosts.




Lemma append_empty (t : string) : EmptyString +:+ t = t.
Proof. reflexivity. Qed.

Lemma append_String (d : ascii) (s t : string) : String d s +:+ t = String d (s +:+ t).
Proof. reflexivity. Qed.

Lemma rstrip_snoc (c : ascii) (cs s : string) :
  Text.contains c cs = true ->
  Text.rstrip cs (s +:+ String c EmptyString) = Text.rstrip cs s.
Proof.
  intros Hc. induction s as [| d s IH].
  - rewrite append_empty. cbn [Text.rstrip]. now rewrite Hc.
  - rewrite append_String. cbn [Text.rstrip]. now rewrite IH.
Qed.

Lemma lstrip_length (cs s : string) :
  (String.length (Text.lstrip cs s) <= String.length s)%nat.
Proof.
  induction s as [| d s IH]; [reflexivity |]. cbn [Text.lstrip].
  destruct (Text.contains d cs); cbn [String.length]; lia.
Qed.

Lemma lstrip_fixed_app (cs s t : string) :
  Text.lstrip cs s = s -> s <> EmptyString -> Text.lstrip cs (s +:+ t) = s +:+ t.
Proof.
  destruct s as [| d s]; [congruence |]. intros H _.
  rewrite append_String. cbn [Text.lstrip] in *.
  destruct (Text.contains d cs); [| reflexivity].
  pose proof (lstrip_length cs s) as L. rewrite H in L. cbn [String.length] in L. lia.
Qed.

(** X12. A literal written between brackets is resolved without them:
    for a text with no bracket at either end, [dialed_host] gives the
    text back from its bracketed form. *)
Theorem X12_dialed_host_unbrackets (s : string) :
  Text.lstrip "[]" s = s -> Text.rstrip "[]" s = s ->
  dialed_host ("[" +:+ s +:+ "]") = s.
Proof.
  intros Hl Hr. unfold dialed_host. rewrite append_String, append_empty.
  cbn [Text.startswith]. rewrite Ascii.eqb_refl.
  unfold Text.strip. cbn [Text.lstrip Text.contains].
  rewrite Ascii.eqb_refl. cbn [orb].
  destruct s as [| d s]; [reflexivity |].
  rewrite lstrip_fixed_app by (assumption || discriminate).
  rewrite rstrip_snoc by reflexivity. exact Hr.
Qed.

End Hosts.

(** X12 at the version 6 address of the tests. *)
Lemma X12_dialed_host_unbrackets_witness :
  dialed_host "[2606:2800:220:1:248:1893:25c8:1946]" = "2606:2800:220:1:248:1893:25c8:1946".
Proof.
  apply (X12_dialed_host_unbrackets "2606:2800:220:1:248:1893:25c8:1946"); reflexivity.
Defined.

(** *** Further properties of the classifier *)

Lemma denied_by (a : ipaddress.address) (r : Spec.range) :
  In r Spec.denylist -> Spec.falls_inside a r -> Spec.denied a.
Proof.
  intros Hin Hr. apply List.Exists_exists. exists r. split; assumption.
Qed.

(** X14. Every version 6 address that carries a version 4 address in the
    mapped form [::ffff:a.b.c.d] is unsafe, whatever the version 4
    address is: a safe address cannot be reached through its mapped
    form. *)
Theorem X14_mapped_addresses_are_unsafe (text : string) (n : Z) (scope : option string) :
  ipaddress.ip_address text = Some (ipaddress.IPv6Address n scope) ->
  65535 * 2 ^ 32 <= n < 65536 * 2 ^ 32 ->
  ip_is_safe text = inr false.
Proof.
  intros Hparse Hn.
  rewrite (ip_is_safe_parsed text _ Hparse). f_equal.
  apply (proj2 (not_in_any_denied _ (ip_address_well_formed text _ Hparse))).
  apply (denied_by _ (6, Spec.v6 [0; 0; 0; 0; 0; 65535; 0; 0], 96)).
  - unfold Spec.denylist, Spec.denylist_v4, Spec.denylist_v6.
    apply in_or_app. right. cbn [In]. auto 10.
  - cbn [Spec.falls_inside ipaddress.version ipaddress._ip ipaddress.max_prefixlen].
    split; [reflexivity |].
    change (Spec.v6 [0; 0; 0; 0; 0; 65535; 0; 0]) with (65535 * 2 ^ 32).
    change (ipaddress.max_prefixlen 6 - 96) with 32. lia.
Qed.

(** X15. Every version 4 address from [224.0.0.0] upwards is unsafe:
    the multicast block and the reserved block together leave nothing
    above them. *)
Theorem X15_multicast_and_above_are_unsafe (text : string) (n : Z) :
  ipaddress.ip_address text = Some (ipaddress.IPv4Address n) ->
  224 * 2 ^ 24 <= n ->
  ip_is_safe text = inr false.
Proof.
  intros Hparse Hn.
  pose proof (ip_address_well_formed text _ Hparse) as Hwf.
  rewrite (ip_is_safe_parsed text _ Hparse). f_equal.
  apply (proj2 (not_in_any_denied _ Hwf)).
  unfold well_formed in Hwf.
  cbn [ipaddress.version ipaddress._ip] in Hwf.
  change (ipaddress.max_prefixlen 4) with 32 in Hwf.
  destruct (Z_lt_dec n (240 * 2 ^ 24)) as [Hlo | Hhi].
  - apply (denied_by _ (4, Spec.v4 224 0 0 0, 4)).
    + unfold Spec.denylist, Spec.denylist_v4. apply in_or_app. left. cbn [In]. auto 20.
    + cbn [Spec.falls_inside ipaddress.version ipaddress._ip ipaddress.max_prefixlen].
      split; [reflexivity |].
      change (Spec.v4 224 0 0 0) with (224 * 2 ^ 24).
      change (ipaddress.max_prefixlen 4 - 4) with 28. lia.
  - apply (denied_by _ (4, Spec.v4 240 0 0 0, 4)).
    + unfold Spec.denylist, Spec.denylist_v4. apply in_or_app. left. cbn [In]. auto 20.
    + cbn [Spec.falls_inside ipaddress.version ipaddress._ip ipaddress.max_prefixlen].
      split; [reflexivity |].
      change (Spec.v4 240 0 0 0) with (240 * 2 ^ 24).
      change (ipaddress.max_prefixlen 4 - 4) with 28. lia.
Qed.

(** X16. The verdict of the loop of [ip_is_safe] does not depend on the
    order of the networks: any rearrangement of the list gives the same
    answer for every address. *)
Theorem X16_order_of_networks_is_irrelevant
        (ip : ipaddress.address) (nets nets' : list ipaddress.network) :
  Permutation nets nets' -> not_in_any ip nets = not_in_any ip nets'.
Proof.
  assert (E : forall l, not_in_any ip l
                        = negb (existsb (fun net => ipaddress.contains net ip) l)).
  { induction l as [| net l IH]; [reflexivity |]. cbn [not_in_any existsb].
    destruct (ipaddress.contains net ip); [reflexivity | exact IH]. }
  intros P. rewrite !E. f_equal.
  induction P as [| x l l' _ IH | x y l | l l' l'' _ IH1 _ IH2]; cbn [existsb].
  - reflexivity.
  - now rewrite IH.
  - destruct (ipaddress.contains y ip), (ipaddress.contains x ip); reflexivity.
  - congruence.
Qed.

(** X17. An address is judged by the networks of its own version only:
    leaving the networks of the other version out of the list changes no
    verdict, so that the number of a version 4 address is never compared
    with a version 6 block. *)
Theorem X17_only_networks_of_the_same_version_count
        (ip : ipaddress.address) (nets : list ipaddress.network) :
  not_in_any ip nets
  = not_in_any ip (List.filter
                     (fun net => ipaddress.net_version net =? ipaddress.version ip) nets).
Proof.
  induction nets as [| net nets IH]; [reflexivity |].
  cbn [not_in_any List.filter].
  destruct (ipaddress.net_version net =? ipaddress.version ip) eqn:V.
  - cbn [not_in_any]. destruct (ipaddress.contains net ip); [reflexivity | exact IH].
  - unfold ipaddress.contains. rewrite V. exact IH.
Qed.

Lemma X14_mapped_addresses_are_unsafe_witness :
  ip_is_safe "::ffff:8.8.8.8" = inr false.
Proof.
  apply (X14_mapped_addresses_are_unsafe "::ffff:8.8.8.8" 281470816487432 None).
  - vm_compute; reflexivity.
  - lia.
Defined.

Lemma X15_multicast_and_above_are_unsafe_witness :
  ip_is_safe "239.1.2.3" = inr false.
Proof.
  apply (X15_multicast_and_above_are_unsafe "239.1.2.3" 4009820675).
  - vm_compute; reflexivity.
  - lia.
Defined.

Lemma X16_order_of_networks_is_irrelevant_witness :
  not_in_any (ipaddress.IPv4Address 134744072) UNSAFE_NETWORKS
  = not_in_any (ipaddress.IPv4Address 134744072) (rev UNSAFE_NETWORKS).
Proof.
  apply X16_order_of_networks_is_irrelevant. apply Permutation_rev.
Defined.

(** *** Further properties of the wiring *)

Section WiringMore.

Import wiring.

(** X18. [apply] leaves every other prefix of the session as it was:
    an adapter mounted under a prefix other than [http://] and
    [https://] is still the one found under that prefix afterwards. *)
Theorem X18_apply_keeps_other_prefixes (s : Session) (k : string) :
  k <> "http://" -> k <> "https://" ->
  adapters_get k (apply s) = adapters_get k s.
Proof.
  intros H1 H2. unfold apply. cbv zeta.
  rewrite adapters_get_mount_other by exact H2.
  now rewrite adapters_get_mount_other by exact H1.
Qed.

(** X19. Through the adapter of [apply] no connection is dialed by
    urllib3's own routine: the pool manager knows the schemes [http] and
    [https], both dialed by this module's [create_connection], and no
    other scheme. *)
Theorem X19_safe_adapter_knows_two_schemes (scheme : string) :
  dialer_for SafeHTTPAdapter_new scheme
  = if String.eqb scheme "http" || String.eqb scheme "https"
    then Some requests_safe_create_connection
    else None.
Proof.
  unfold dialer_for, SafeHTTPAdapter_new, SafePoolManager_init.
  cbn [poolmanager pool_classes_by_scheme].
  destruct (String.eqb_spec scheme "https") as [-> | Hs].
  - rewrite lookup_insert_eq. reflexivity.
  - rewrite lookup_insert_ne by congruence.
    destruct (String.eqb_spec scheme "http") as [-> | Hp].
    + rewrite lookup_insert_eq. reflexivity.
    + rewrite lookup_insert_ne by congruence. rewrite lookup_empty. reflexivity.
Qed.

End WiringMore.

Lemma X18_apply_keeps_other_prefixes_witness :
  wiring.adapters_get "file://"
    (wiring.apply (wiring.mount "file://" wiring.HTTPAdapter_new wiring.Session_new))
  = Some wiring.HTTPAdapter_new.
Proof.
  rewrite (X18_apply_keeps_other_prefixes
             (wiring.mount "file://" wiring.HTTPAdapter_new wiring.Session_new) "file://")
    by discriminate.
  apply adapters_get_mount_same.
Defined.

(** *** The dialer at the fixtures, continued *)

Lemma X4_attempts_follow_the_resolver_witness :
  exists k,
    attempted (snd (create_connection refused_once
                      (fake_getaddrinfo [documentation_v6; example_com_v6; example_com_v4;
                                         example_com_v6])
                      ("example.com", 80) (Timeout (Some 5))
                      (Some default_socket_options) []))
    = [] ++ map socket_args
              (firstn k (List.filter is_safe
                           [documentation_v6; example_com_v6; example_com_v4;
                            example_com_v6])).
Proof.
  apply (X4_attempts_follow_the_resolver seconds refused_once
           (fake_getaddrinfo [documentation_v6; example_com_v6; example_com_v4;
                              example_com_v6])
           "example.com" 80 (Timeout (Some 5)) (Some default_socket_options) []).
  vm_compute; reflexivity.
Defined.

Lemma X7_resolution_failure_propagates_witness :
  _new_conn str_seconds reachable name_not_known example_connection []
  = (inl (Exn NewConnectionError
              "Failed to establish a new connection: [Errno -2] Name or service not known"),
     []).
Proof.
  exact (proj2 (X7_resolution_failure_propagates seconds reachable str_seconds
                  name_not_known example_connection []
                  (Exn socket_gaierror "[Errno -2] Name or service not known") eq_refl)).
Defined.

Lemma X8_unsafe_then_safe_succeeds_witness :
  create_connection reachable (fake_getaddrinfo [rfc1918_v4; example_com_v4])
                    ("example.com", 80) (Timeout (Some 5)) (Some default_socket_options) []
  = (inr 0%nat,
     [Event (socket_socket AF_INET SOCK_STREAM IPPROTO_TCP) None;
      Event (setsockopt 0 (6, 1, 1)) None;
      Event (settimeout 0 (Some 5)) None;
      Event (connect 0 (SockAddr "93.184.216.34" 80 None)) None]).
Proof.
  refine (proj1 (X8_unsafe_then_safe_succeeds seconds reachable
                   (fake_getaddrinfo [rfc1918_v4; example_com_v4]) "example.com" 80
                   (Timeout (Some 5)) default_socket_options [] [rfc1918_v4]
                   example_com_v4 [] _ _ _ _ _));
    vm_compute; reflexivity.
Defined.

Lemma X9_fake_socket_raises_always_fails_witness :
  exists l',
    _new_conn str_seconds fake_socket_raises
              (fake_getaddrinfo [documentation_v6; example_com_v6]) example_connection []
    = (inl (Exn NewConnectionError "Failed to establish a new connection: Always fails"),
       l').
Proof.
  edestruct (X9_fake_socket_raises_always_fails str_seconds
               (fake_getaddrinfo [documentation_v6; example_com_v6]) example_connection []
               [documentation_v6; example_com_v6] default_socket_options)
    as (l' & _ & N & _); [vm_compute; reflexivity .. |].
  exists l'. exact N.
Defined.

Lemma X10_fake_socket_timeout_times_out_witness :
  exists l',
    _new_conn str_seconds fake_socket_timeout
              (fake_getaddrinfo [example_com_v6]) example_connection []
    = (inl (Exn ConnectTimeoutError
                "Connection to example.com timed out. (connect timeout=5)"), l').
Proof.
  edestruct (X10_fake_socket_timeout_times_out str_seconds
               (fake_getaddrinfo [example_com_v6]) example_connection []
               [example_com_v6])
    as (l' & _ & N & _); [vm_compute; reflexivity .. |].
  exists l'. exact N.
Defined.

(** *** One socket at a time *)

Section OneAtATime.

Variable timeout_value : Type.
Variable env : log timeout_value -> call timeout_value -> option exn.

Implicit Types (g : resolver) (name : string) (cands : list addrinfo)
         (l : log timeout_value) (res : addrinfo) (err : option exn)
         (tmo : timeout timeout_value) (so : option (list sockopt))
         (body evs : list (event timeout_value)).

(** At every moment of a round at most its own socket is open. *)
Lemma loop_body_one_socket res tmo so err l fl evs :
  loop_body env tmo so res err l = (fl, l ++ evs) ->
  forall n, exists extra,
      open_sockets (l ++ firstn n evs) = open_sockets l ++ extra
      /\ (length extra <= 1)%nat.
Proof.
  intros H n.
  assert (Hnil : exists extra,
             open_sockets (l ++ []) = open_sockets l ++ extra /\ (length extra <= 1)%nat).
  { exists []. rewrite !app_nil_r. split; [reflexivity | cbn; lia]. }
  destruct (is_safe res) eqn:S.
  2: { apply loop_body_not_safe in H; [| exact S]. destruct H as [E _].
       rewrite <- (app_nil_r l) in E at 2. apply app_inv_head in E. subst evs.
       rewrite firstn_nil. exact Hnil. }
  apply loop_body_safe in H; [| exact S]. cbv zeta in H.
  destruct n as [| n]; [exact Hnil |].
  destruct H as [(e & E & _) | [(body & Hb & E & _) | (body & e & Hb & E & _)]];
    apply app_inv_head in E; subst evs; cbn [firstn].
  - rewrite firstn_nil. exists []. rewrite open_sockets_refused, app_nil_r.
    split; [reflexivity | cbn; lia].
  - exists [fresh l]. split; [| cbn; lia].
    apply open_sockets_created. apply Forall_take. exact Hb.
  - rewrite firstn_app.
    destruct (Nat.le_gt_cases n (length body)) as [Hle | Hgt].
    + replace (n - length body)%nat with 0%nat by lia. cbn [firstn]. rewrite app_nil_r.
      exists [fresh l]. split; [| cbn; lia].
      apply open_sockets_created. apply Forall_take. exact Hb.
    + rewrite firstn_all2 by lia.
      destruct (n - length body)%nat as [| m] eqn:Hm; [lia |]. cbn [firstn].
      rewrite firstn_nil.
      exists []. rewrite app_nil_r. split; [| cbn; lia].
      apply open_sockets_closed. exact Hb.
Qed.

Lemma for_loop_one_socket tmo so cands err l fl evs :
  for_loop env tmo so cands err l = (fl, l ++ evs) ->
  forall n, exists extra,
      open_sockets (l ++ firstn n evs) = open_sockets l ++ extra
      /\ (length extra <= 1)%nat.
Proof.
  revert err l evs. induction cands as [| res rest IH]; intros err l evs H n.
  - injection H as _ E. rewrite <- (app_nil_r l) in E at 1. apply app_inv_head in E.
    subst evs. rewrite firstn_nil, app_nil_r. exists []. rewrite app_nil_r.
    split; [reflexivity | cbn; lia].
  - cbn [for_loop] in H.
    destruct (loop_body env tmo so res err l) as [fl1 l1] eqn:Hb.
    pose proof Hb as Hb'. apply loop_body_events in Hb'. destruct Hb' as (evs1 & -> & _).
    destruct fl1 as [err1 | s | e].
    + pose proof H as H'. apply for_loop_events in H'. destruct H' as (evs2 & E2 & _).
      assert (E : evs = evs1 ++ evs2).
      { rewrite <- app_assoc in E2. now apply app_inv_head in E2. }
      subst evs. rewrite app_assoc in H.
      rewrite firstn_app.
      destruct (Nat.le_gt_cases n (length evs1)) as [Hle | Hgt].
      * replace (n - length evs1)%nat with 0%nat by lia. cbn [firstn]. rewrite app_nil_r.
        eapply loop_body_one_socket, Hb.
      * rewrite firstn_all2 by lia. rewrite app_assoc.
        destruct (IH _ _ _ H (n - length evs1)%nat) as (extra & Ho & Hl).
        exists extra. split; [| exact Hl]. rewrite Ho.
        apply loop_body_next in Hb. destruct Hb as [-> _]. reflexivity.
    + injection H as _ E. apply app_inv_head in E. subst evs.
      eapply loop_body_one_socket, Hb.
    + injection H as _ E. apply app_inv_head in E. subst evs.
      eapply loop_body_one_socket, Hb.
Qed.

(** X20. [create_connection] has at most one socket of its own open at
    any moment of the call: after every one of its calls on the socket
    layer, the open sockets are those that were open before the call and
    at most one more. *)
Theorem X20_one_socket_at_a_time g name p tmo so l :
  exists evs,
    snd (create_connection env g (name, p) tmo so l) = l ++ evs
    /\ forall n, exists extra,
         open_sockets (l ++ firstn n evs) = open_sockets l ++ extra
         /\ (length extra <= 1)%nat.
Proof.
  unfold create_connection.
  destruct (g _ _ _ _ _ _) as [e | cands].
  - exists []. split; [cbn; now rewrite app_nil_r |]. intros n.
    rewrite firstn_nil, app_nil_r. exists []. rewrite app_nil_r.
    split; [reflexivity | cbn; lia].
  - unfold dial.
    destruct (for_loop env tmo so cands None l) as [fl l'] eqn:Hf.
    pose proof Hf as Hf'. apply for_loop_events in Hf'. destruct Hf' as (evs & -> & _).
    exists evs. split; [destruct fl as [[e |] | sock | e]; reflexivity |].
    eapply for_loop_one_socket, Hf.
Qed.

End OneAtATime.
